(** * Operational transform and document hub of the collaborative editor

    Shallow embedding of
    - [backend/documents/operational_transform.py] (class
      [OperationalTransform]),
    - [backend/documents/consumers.py] ([DocumentConsumer.handle_operation],
      [DocumentConsumer.apply_operation_with_transform],
      [DocumentConsumer.operation_broadcast],
      [DocumentConsumer.authenticate_user]),
    - [backend/documents/models.py] ([Document.increment_version],
      [Document.has_access], [Document.add_collaborator],
      [Document.remove_collaborator], [Operation.to_dict]),
    - [backend/documents/views.py] (the views that join, leave, publish and
      share a document, and [DocumentDetailView.perform_destroy]).

    Python integers are [Z]; a Python [str] is a list of characters; an
    operation dict is a record of optional keys (a key that is absent is
    [None]), each key carrying a value of its wire type. *)

From Stdlib Require Import ZArith List String Ascii Bool Lia.
Import ListNotations.

Local Open Scope Z_scope.

(** ** Python strings and slices *)

Definition str := list ascii.

Definition txt (s : string) : str := list_ascii_of_string s.

Definition len (s : str) : Z := Z.of_nat (List.length s).

(** [s[:i]] and [s[i:]]; a negative index counts from the end. *)
Definition slice_to (s : str) (i : Z) : str :=
  if i <? 0 then firstn (Z.to_nat (Z.max 0 (len s + i))) s
  else firstn (Z.to_nat i) s.

Definition slice_from (s : str) (i : Z) : str :=
  if i <? 0 then skipn (Z.to_nat (Z.max 0 (len s + i))) s
  else skipn (Z.to_nat i) s.

(** ** Operations *)

(** An operation dict as it arrives: every key may be missing. *)
Record OpDict := mkDict {
  d_type : option string;
  d_position : option Z;
  d_content : option str;
  d_length : option Z;
  d_deleted_content : option str;
  d_client_version : option Z
}.

(** The dict built by [_normalize_operation]: exactly the four keys
    [type], [position], [content], [length]. *)
Record Op := mkOp {
  op_type : string;
  op_position : Z;
  op_content : str;
  op_length : Z
}.

(** A four-key dict passed where a dict is expected. *)
Definition as_dict (o : Op) : OpDict :=
  {| d_type := Some (op_type o);
     d_position := Some (op_position o);
     d_content := Some (op_content o);
     d_length := Some (op_length o);
     d_deleted_content := None;
     d_client_version := None |}.

(** [d.get(key, default)] *)
Definition get {A : Type} (v : option A) (default : A) : A :=
  match v with
  | Some x => x
  | None => default
  end.

Definition with_position (o : Op) (p : Z) : Op :=
  {| op_type := op_type o; op_position := p;
     op_content := op_content o; op_length := op_length o |}.

Definition with_length (o : Op) (l : Z) : Op :=
  {| op_type := op_type o; op_position := op_position o;
     op_content := op_content o; op_length := l |}.

Definition is_insert (o : Op) : bool := String.eqb (op_type o) "insert".
Definition is_delete (o : Op) : bool := String.eqb (op_type o) "delete".
Definition is_retain (o : Op) : bool := String.eqb (op_type o) "retain".

Module OperationalTransform.

(** The pair [{'op1': ..., 'op2': ...}] returned by [transform]. *)
Record Pair := mkPair { op1 : Op; op2 : Op }.

Definition _normalize_operation (op : OpDict) : Op :=
  let normalized :=
    {| op_type := get (d_type op) "retain"%string;
       op_position := get (d_position op) 0;
       op_content := get (d_content op) [];
       op_length := get (d_length op) 0 |} in
  if is_insert normalized && (op_length normalized =? 0)
  then with_length normalized (len (op_content normalized))
  else normalized.

Definition _transform_insert_insert (o1 o2 : Op) : Pair :=
  if op_position o1 <=? op_position o2 then
    {| op1 := o1;
       op2 := with_position o2 (op_position o2 + len (op_content o1)) |}
  else
    {| op1 := with_position o1 (op_position o1 + len (op_content o2));
       op2 := o2 |}.

Definition _handle_overlapping_deletes (o1 o2 : Op) : Pair :=
  let op1_end := op_position o1 + op_length o1 in
  let op2_end := op_position o2 + op_length o2 in
  let overlap_start := Z.max (op_position o1) (op_position o2) in
  let overlap_end := Z.min op1_end op2_end in
  let overlap_length := Z.max 0 (overlap_end - overlap_start) in
  if op_position o1 <? op_position o2 then
    {| op1 := with_length o1 (op_position o2 - op_position o1);
       op2 := with_length (with_position o2 (op_position o1))
                (Z.max 0 (op_length o2 - overlap_length)) |}
  else
    {| op1 := with_length (with_position o1 (op_position o2))
                (Z.max 0 (op_length o1 - overlap_length));
       op2 := with_length o2 (op_position o1 - op_position o2) |}.

Definition _transform_delete_delete (o1 o2 : Op) : Pair :=
  let op1_end := op_position o1 + op_length o1 in
  let op2_end := op_position o2 + op_length o2 in
  if op1_end <=? op_position o2 then
    {| op1 := o1;
       op2 := with_position o2 (op_position o2 - op_length o1) |}
  else if op2_end <=? op_position o1 then
    {| op1 := with_position o1 (op_position o1 - op_length o2);
       op2 := o2 |}
  else _handle_overlapping_deletes o1 o2.

Definition _transform_insert_delete (insert_op delete_op : Op) : Pair :=
  let delete_end := op_position delete_op + op_length delete_op in
  if op_position insert_op <=? op_position delete_op then
    {| op1 := insert_op;
       op2 := with_position delete_op
                (op_position delete_op + len (op_content insert_op)) |}
  else if delete_end <=? op_position insert_op then
    {| op1 := with_position insert_op
                (op_position insert_op - op_length delete_op);
       op2 := delete_op |}
  else
    {| op1 := with_position insert_op (op_position delete_op);
       op2 := with_length delete_op
                (op_length delete_op + len (op_content insert_op)) |}.

Definition transform (a b : OpDict) : Pair :=
  let o1 := _normalize_operation a in
  let o2 := _normalize_operation b in
  if is_insert o1 && is_insert o2 then _transform_insert_insert o1 o2
  else if is_delete o1 && is_delete o2 then _transform_delete_delete o1 o2
  else if is_insert o1 && is_delete o2 then _transform_insert_delete o1 o2
  else if is_delete o1 && is_insert o2 then
    let result := _transform_insert_delete o2 o1 in
    {| op1 := op2 result; op2 := op1 result |}
  else {| op1 := o1; op2 := o2 |}.

Definition apply_operation (content : str) (operation : OpDict) : str :=
  let op := _normalize_operation operation in
  if is_insert op then
    let pos := Z.max 0 (Z.min (op_position op) (len content)) in
    slice_to content pos ++ op_content op ++ slice_from content pos
  else if is_delete op then
    let pos := Z.max 0 (Z.min (op_position op) (len content)) in
    let end_pos := Z.max pos (Z.min (pos + op_length op) (len content)) in
    slice_to content pos ++ slice_from content end_pos
  else if is_retain op then content
  else content.

(** [op] in the body is the normalized dict, so [op.get('deleted_content',
    '')] reads a key that [_normalize_operation] never sets. *)
Definition invert_operation (operation : OpDict) : Op :=
  let op := _normalize_operation operation in
  if is_insert op then
    {| op_type := "delete"; op_position := op_position op;
       op_content := []; op_length := len (op_content op) |}
  else if is_delete op then
    {| op_type := "insert"; op_position := op_position op;
       op_content := get (d_deleted_content (as_dict op)) [];
       op_length := 0 |}
  else op.

Definition validate_operation (operation : OpDict) (content_length : Z)
  : bool :=
  let op := _normalize_operation operation in
  if (op_position op <? 0) || (content_length <? op_position op) then false
  else if is_delete op && (content_length <? op_position op + op_length op)
  then false
  else true.

End OperationalTransform.

Import OperationalTransform.

(** Dict literals used in the examples. *)
Definition insert_op (p : Z) (s : string) : OpDict :=
  mkDict (Some "insert"%string) (Some p) (Some (txt s)) None None None.

Definition delete_op (p l : Z) : OpDict :=
  mkDict (Some "delete"%string) (Some p) None (Some l) None None.


(** ** Document hub *)

(** The [Document] instance a consumer holds in [self.document]. *)
Record Document := mkDocument {
  doc_content : str;
  doc_version : Z
}.

(** A row of the [Operation] table. *)
Record Operation := mkOperation {
  operation_type : string;
  o_position : Z;
  o_content : str;
  o_length : Z;
  o_user : Z;
  o_version : Z
}.

(** [Operation.to_dict]; the keys [id], [user_id], [username], [version]
    and [timestamp] are read by no function modelled here. *)
Definition to_dict (p : Operation) : OpDict :=
  {| d_type := Some (operation_type p);
     d_position := Some (o_position p);
     d_content := Some (o_content p);
     d_length := Some (o_length p);
     d_deleted_content := None;
     d_client_version := None |}.

(** [Document.increment_version] *)
Definition increment_version (d : Document) : Document :=
  {| doc_content := doc_content d; doc_version := doc_version d + 1 |}.

(** The state [apply_operation_with_transform] works on: the document
    object of the consumer and the operation rows of that document, in
    timestamp order (the order in which they were created). *)
Record Hub := mkHub {
  document : Document;
  operations : list Operation
}.

(** The dict returned by a successful [apply_operation_with_transform];
    its [timestamp] is the wall-clock time of the new row and is left out. *)
Record Applied := mkApplied {
  r_operation : OpDict;
  r_version : Z
}.

(** What [handle_operation] sends. *)
Inductive Event :=
| operation_broadcast_event
    (operation : OpDict) (version user_id sender_channel : Z)
| operation_ack (version : Z).

(** The frame a consumer forwards to its client. *)
Inductive Frame :=
| operation_frame (operation : OpDict) (version user_id : Z).

Section Hub.

(** Whether the database stores a new [Operation] row; a row it refuses
    (a negative [PositiveIntegerField], an over-long [operation_type]) makes
    [Operation.objects.create] raise.  Which rows are refused depends on the
    database backend. *)
Variable db_accepts : Operation -> bool.

(** The queryset of lines 303-306. *)
Definition pending_operations (st : Hub) (user : Z) (operation : OpDict)
  : list Operation :=
  let base := get (d_client_version operation) (doc_version (document st)) in
  filter (fun p => (base <? o_version p) && negb (o_user p =? user))
         (operations st).

(** The loop of lines 308-314. *)
Definition transformed_op (st : Hub) (user : Z) (operation : OpDict)
  : OpDict :=
  fold_left (fun t pending_op => as_dict (op1 (transform t (to_dict pending_op))))
            (pending_operations st user operation) operation.

(** [transformed_op['type']] or [transformed_op['position']] on a missing
    key, or a row the database refuses, raises inside the [try]: the
    function logs and returns [None], after the document object has been
    given its new content and version. *)
Definition apply_operation_with_transform
    (st : Hub) (user : Z) (operation : OpDict) : option Applied * Hub :=
  let t := transformed_op st user operation in
  let doc :=
    increment_version
      {| doc_content := apply_operation (doc_content (document st)) t;
         doc_version := doc_version (document st) |} in
  match d_type t, d_position t with
  | Some ty, Some pos =>
      let op_record :=
        {| operation_type := ty; o_position := pos;
           o_content := get (d_content t) [];
           o_length := get (d_length t) 0;
           o_user := user; o_version := doc_version doc |} in
      if db_accepts op_record then
        (Some {| r_operation := t; r_version := doc_version doc |},
         {| document := doc; operations := operations st ++ [op_record] |})
      else (None, {| document := doc; operations := operations st |})
  | _, _ => (None, {| document := doc; operations := operations st |})
  end.

(** [not operation] for a dict: true when it has no key. *)
Definition dict_is_empty (d : OpDict) : bool :=
  match d_type d, d_position d, d_content d, d_length d,
        d_deleted_content d, d_client_version d with
  | None, None, None, None, None, None => true
  | _, _, _, _, _, _ => false
  end.

(** [data_operation] is [data.get('operation')]. *)
Definition handle_operation
    (st : Hub) (user channel_name : Z) (data_operation : option OpDict)
  : list Event * Hub :=
  match data_operation with
  | None => ([], st)
  | Some operation =>
      if dict_is_empty operation then ([], st)
      else
        match apply_operation_with_transform st user operation with
        | (Some result, st') =>
            ([operation_broadcast_event (r_operation result)
                (r_version result) user channel_name;
              operation_ack (r_version result)], st')
        | (None, st') => ([], st')
        end
  end.

(** Submits made one after another on the same document object, all of
    them successful. *)
Fixpoint submits (st : Hub) (reqs : list (Z * OpDict)) : option Hub :=
  match reqs with
  | [] => Some st
  | (user, operation) :: rest =>
      match apply_operation_with_transform st user operation with
      | (Some _, st') => submits st' rest
      | (None, _) => None
      end
  end.

End Hub.

(** The group handler [operation_broadcast] of the consumer on
    [channel_name]. *)
Definition operation_broadcast (channel_name : Z) (event : Event)
  : option Frame :=
  match event with
  | operation_broadcast_event operation version user_id sender_channel =>
      if sender_channel =? channel_name then None
      else Some (operation_frame operation version user_id)
  | operation_ack _ => None
  end.

(** A backend that enforces the two [PositiveIntegerField]s. *)
Definition positive_fields (p : Operation) : bool :=
  (0 <=? o_position p) && (0 <=? o_length p).

Definition empty_hub : Hub :=
  {| document := {| doc_content := []; doc_version := 0 |};
     operations := [] |}.

(** The hub after user 1 has inserted "abcdef" and then deleted "bcd". *)
Definition hub_aef : Hub :=
  {| document := {| doc_content := txt "aef"; doc_version := 2 |};
     operations :=
       [ mkOperation "insert" 0 (txt "abcdef") 0 1 1;
         mkOperation "delete" 1 [] 3 1 2 ] |}.

(** An operation dict with a [client_version]. *)
Definition at_version (v : Z) (d : OpDict) : OpDict :=
  mkDict (d_type d) (d_position d) (d_content d) (d_length d)
         (d_deleted_content d) (Some v).

(** ** Composition of operations

    [OperationalTransform.compose_operations], lines 202-251 of
    [operational_transform.py]. *)

(** The dict that replaces [composed[-1]] when two inserts merge. *)
Definition merged_insert (last_op normalized_op : Op) : Op :=
  {| op_type := "insert";
     op_position := op_position last_op;
     op_content := op_content last_op ++ op_content normalized_op;
     op_length := len (op_content last_op) + len (op_content normalized_op) |}.

(** The dict that replaces [composed[-1]] when two deletes merge. *)
Definition merged_delete (last_op normalized_op : Op) : Op :=
  {| op_type := "delete";
     op_position := op_position last_op;
     op_content := [];
     op_length := op_length last_op + op_length normalized_op |}.

(** One turn of the loop over [ops]; [composed] is in list order, its last
    element is [composed[-1]]. *)
Definition compose_step (composed : list Op) (op : OpDict) : list Op :=
  let normalized_op := _normalize_operation op in
  match rev composed with
  | [] => [normalized_op]
  | last_op :: _ =>
      if is_insert last_op && is_insert normalized_op
         && (op_position last_op + len (op_content last_op)
             =? op_position normalized_op)
      then removelast composed ++ [merged_insert last_op normalized_op]
      else if is_delete last_op && is_delete normalized_op
              && (op_position last_op =? op_position normalized_op)
      then removelast composed ++ [merged_delete last_op normalized_op]
      else composed ++ [normalized_op]
  end.

Definition compose_operations (ops : list OpDict) : list Op :=
  match ops with
  | [] => []
  | _ => fold_left compose_step ops []
  end.

(** ** Authentication of a connection

    [DocumentConsumer.authenticate_user], lines 208-226 of [consumers.py]. *)

(** [s.split(sep)] for a separator of one character. *)
Fixpoint split_on (sep : ascii) (s : str) : list str :=
  match s with
  | [] => [[]]
  | c :: rest =>
      if Ascii.eqb c sep then [] :: split_on sep rest
      else match split_on sep rest with
           | param :: params => (c :: param) :: params
           | [] => [[c]]
           end
  end.

(** [s.startswith(prefix)] *)
Fixpoint startswith (s prefix : str) : bool :=
  match prefix, s with
  | [], _ => true
  | p :: prefix', c :: s' => Ascii.eqb c p && startswith s' prefix'
  | _ :: _, [] => false
  end.

(** The loop of lines 214-217: the text after [token=] in the first
    parameter that starts with it. *)
Definition token_of_query (query_string : str) : option str :=
  match find (fun param => startswith param (txt "token="))
             (split_on "&"%char query_string) with
  | Some param => Some (slice_from param 6)
  | None => None
  end.

Section Authentication.

(** [UntypedToken(token)] returns, or raises [InvalidToken] or
    [TokenError]; [get_user_from_token] returns a user or [None].  Both
    belong to the token library and the user table. *)
Variable UntypedToken : str -> bool.
Variable get_user_from_token : str -> option Z.

(** The value of [self.user] after [authenticate_user]. *)
Definition authenticate_user (query_string : str) : option Z :=
  match token_of_query query_string with
  | Some ((_ :: _) as token) =>
      if UntypedToken token then get_user_from_token token else None
  | _ => None
  end.

End Authentication.

(** ** Access to a document

    The access rules of [models.py] and the views of [views.py] that call
    them. *)

(** The fields of a [Document] row that the access rules read; the
    many-to-many relation [collaborators] is the list of the related user
    ids. *)
Record DocumentAccess := mkAccess {
  created_by : Z;
  collaborators : list Z;
  is_public : bool;
  is_active : bool
}.

Module DocumentModel.

(** [user in self.collaborators.all()] *)
Definition is_collaborator (d : DocumentAccess) (user : Z) : bool :=
  existsb (Z.eqb user) (collaborators d).

Definition has_access (d : DocumentAccess) (user : Z) : bool :=
  (created_by d =? user) || is_collaborator d user || is_public d.

(** [self.collaborators.add(user)]: a relation that exists is not added
    again. *)
Definition add_collaborator (d : DocumentAccess) (user : Z)
  : DocumentAccess :=
  if is_collaborator d user then d
  else {| created_by := created_by d;
          collaborators := collaborators d ++ [user];
          is_public := is_public d;
          is_active := is_active d |}.

(** [self.collaborators.remove(user)] *)
Definition remove_collaborator (d : DocumentAccess) (user : Z)
  : DocumentAccess :=
  {| created_by := created_by d;
     collaborators := filter (fun c => negb (c =? user)) (collaborators d);
     is_public := is_public d;
     is_active := is_active d |}.

End DocumentModel.

(** A row of the user table. *)
Record UserRow := mkUser {
  user_id : Z;
  user_email : str
}.

Module Views.

Import DocumentModel.

(** What a view answers: the HTTP status, or the exception that escapes
    it. *)
Inductive Response :=
| HTTP (status : Z)
| MultipleObjectsReturned.

(** [get_object_or_404(Document, id=document_id, is_active=True)] and
    [Document.objects.get(id=document_id, is_active=True)]; [row] is the row
    with that id, if there is one. *)
Definition get_active (row : option DocumentAccess) : option DocumentAccess :=
  match row with
  | Some d => if is_active d then Some d else None
  | None => None
  end.

(** [User.objects.get(id=user_id)]; ids are unique. *)
Definition get_user_by_id (users : list UserRow) (id : Z) : option UserRow :=
  find (fun u => user_id u =? id) users.

Definition str_eqb (a b : str) : bool :=
  if list_eq_dec Ascii.ascii_dec a b then true else false.

Definition join_document (request_user : Z) (row : option DocumentAccess)
  : Response * option DocumentAccess :=
  match get_active row with
  | None => (HTTP 404, row)
  | Some document =>
      if negb (is_public document) && negb (has_access document request_user)
      then (HTTP 403, row)
      else if negb (is_collaborator document request_user)
      then (HTTP 200, Some (add_collaborator document request_user))
      else (HTTP 200, row)
  end.

(** The update of the sessions of the user is left out. *)
Definition leave_document (request_user : Z) (row : option DocumentAccess)
  : Response * option DocumentAccess :=
  match get_active row with
  | None => (HTTP 404, row)
  | Some document =>
      if created_by document =? request_user then (HTTP 400, row)
      else (HTTP 200, Some (remove_collaborator document request_user))
  end.

Definition toggle_document_public (request_user : Z)
    (row : option DocumentAccess) : Response * option DocumentAccess :=
  match get_active row with
  | None => (HTTP 404, row)
  | Some document =>
      if negb (created_by document =? request_user) then (HTTP 403, row)
      else (HTTP 200,
            Some {| created_by := created_by document;
                    collaborators := collaborators document;
                    is_public := negb (is_public document);
                    is_active := is_active document |})
  end.

(** [data_user_id] and [data_email] are [request.data.get('user_id')] and
    [request.data.get('email')]; 0 and the empty string are false.
    [User.objects.get(email=email)] raises when several users have the
    email. *)
Definition add_collaborator (users : list UserRow) (request_user : Z)
    (data_user_id : option Z) (data_email : option str)
    (row : option DocumentAccess) : Response * option DocumentAccess :=
  match get_active row with
  | None => (HTTP 404, row)
  | Some document =>
      if negb (created_by document =? request_user) then (HTTP 403, row)
      else
        let found (collaborator : option UserRow) :=
          match collaborator with
          | None => (HTTP 404, row)
          | Some c =>
              if is_collaborator document (user_id c) then (HTTP 400, row)
              else (HTTP 200,
                    Some (DocumentModel.add_collaborator document (user_id c)))
          end in
        let by_email :=
          match data_email with
          | Some ((_ :: _) as email) =>
              match filter (fun u => str_eqb (user_email u) email) users with
              | [] => found None
              | [u] => found (Some u)
              | _ => (MultipleObjectsReturned, row)
              end
          | _ => found None
          end in
        match data_user_id with
        | Some id =>
            if negb (id =? 0) then found (get_user_by_id users id)
            else by_email
        | None => by_email
        end
  end.

Definition remove_collaborator (users : list UserRow) (request_user : Z)
    (id : Z) (row : option DocumentAccess) : Response * option DocumentAccess :=
  match get_active row with
  | None => (HTTP 404, row)
  | Some document =>
      if negb (created_by document =? request_user) then (HTTP 403, row)
      else match get_user_by_id users id with
           | None => (HTTP 404, row)
           | Some collaborator =>
               (HTTP 200,
                Some (DocumentModel.remove_collaborator document
                        (user_id collaborator)))
           end
  end.

(** [DocumentDetailView.perform_destroy]: the response it returns to its
    caller, if any, and the instance afterwards. *)
Definition perform_destroy (request_user : Z) (instance : DocumentAccess)
  : option Response * DocumentAccess :=
  if negb (created_by instance =? request_user)
  then (Some (HTTP 403), instance)
  else (None,
        {| created_by := created_by instance;
           collaborators := collaborators instance;
           is_public := is_public instance;
           is_active := false |}).

End Views.

(** ** Auxiliary definitions for the statements *)


(** The body of [apply_operation] after its call to
    [_normalize_operation]. *)
Definition apply_normalized (content : str) (op : Op) : str :=
  if is_insert op then
    let pos := Z.max 0 (Z.min (op_position op) (len content)) in
    slice_to content pos ++ op_content op ++ slice_from content pos
  else if is_delete op then
    let pos := Z.max 0 (Z.min (op_position op) (len content)) in
    let end_pos := Z.max pos (Z.min (pos + op_length op) (len content)) in
    slice_to content pos ++ slice_from content end_pos
  else content.

Definition op_end (o : Op) : Z := op_position o + op_length o.

(** The overlap of two delete spans as section 4.1 writes it. *)
Definition overlap (a b : Op) : Z :=
  Z.max 0 (Z.min (op_end a) (op_end b)
           - Z.max (op_position a) (op_position b)).

Definition nonneg (o : Op) : Prop := 0 <= op_position o /\ 0 <= op_length o.

(** One of the three kinds of the data model. *)
Definition known_kind (t : string) : Prop :=
  t = "insert"%string \/ t = "delete"%string \/ t = "retain"%string.

(** Pairs of operations on which the transform rules converge: two deletes
    unless the one that starts first (or, from the same start, the second
    argument) reaches past the end of the other; an insert and a delete
    unless the insert lies strictly inside the deleted span. *)
Definition convergent (a b : Op) : bool :=
  if is_delete a && is_delete b then
    (op_end a <=? op_position b) || (op_end b <=? op_position a)
    || (if op_position a <? op_position b then op_end a <=? op_end b
        else op_end b <=? op_end a)
  else if is_insert a && is_delete b then
    (op_position a <=? op_position b) || (op_end b <=? op_position a)
  else if is_delete a && is_insert b then
    (op_position b <=? op_position a) || (op_end a <=? op_position b)
  else true.

(** An operation that passes [validate_operation] and, if it is a delete,
    has no negative length. *)
Definition fits (operation : OpDict) (content : str) : bool :=
  validate_operation operation (len content)
  && (negb (is_delete (_normalize_operation operation))
      || (0 <=? op_length (_normalize_operation operation))).

(** The body of [transform] after its two calls to
    [_normalize_operation]. *)
Definition transform_normalized (o1 o2 : Op) : Pair :=
  if is_insert o1 && is_insert o2 then _transform_insert_insert o1 o2
  else if is_delete o1 && is_delete o2 then _transform_delete_delete o1 o2
  else if is_insert o1 && is_delete o2 then _transform_insert_delete o1 o2
  else if is_delete o1 && is_insert o2 then
    let result := _transform_insert_delete o2 o1 in
    {| op1 := op2 result; op2 := op1 result |}
  else {| op1 := o1; op2 := o2 |}.

(** Applying a list of operation dicts in order. *)
Definition apply_all (content : str) (ops : list OpDict) : str :=
  fold_left apply_operation ops content.

(** An operation [compose_operations] merges faithfully: an insert is not
    placed before position 0 and a delete has no negative length. *)
Definition mergeable (operation : OpDict) : bool :=
  let op := _normalize_operation operation in
  (negb (is_insert op) || (0 <=? op_position op))
  && (negb (is_delete op) || (0 <=? op_length op)).

Definition mergeable_op (op : Op) : Prop :=
  (is_insert op = true -> 0 <= op_position op)
  /\ (is_delete op = true -> 0 <= op_length op).

(** The two conditions under which [compose_operations] merges an
    operation into the one before it. *)
Definition merges (last_op op : Op) : bool :=
  (is_insert last_op && is_insert op
   && (op_position last_op + len (op_content last_op) =? op_position op))
  || (is_delete last_op && is_delete op
      && (op_position last_op =? op_position op)).

(** No element of the list merges into the one before it. *)
Fixpoint merged (l : list Op) : Prop :=
  match l with
  | a :: (b :: _) as rest => merges a b = false /\ merged rest
  | _ => True
  end.

(** A dict of four keys that [_normalize_operation] gives back as it
    is: an insert of length 0 has no content. *)
Definition settled (op : Op) : Prop :=
  is_insert op = true -> op_length op = 0 -> op_content op = [].

(** An operation that edits: an insert or a delete. *)
Definition edits (operation : OpDict) : bool :=
  is_insert (_normalize_operation operation)
  || is_delete (_normalize_operation operation).

(** The parameters of a query string joined with [&]; the inverse of
    [split_on] on parameters without [&]. *)
Fixpoint join_params (params : list str) : str :=
  match params with
  | [] => []
  | [param] => param
  | param :: rest => param ++ "&"%char :: join_params rest
  end.

(** ** Basic facts *)

Lemma insert_not_delete (o : Op) : is_insert o = true -> is_delete o = false.
Proof.
  unfold is_insert, is_delete. intros H.
  apply String.eqb_eq in H. rewrite H. reflexivity.
Qed.

Lemma delete_not_insert (o : Op) : is_delete o = true -> is_insert o = false.
Proof.
  unfold is_insert, is_delete. intros H.
  apply String.eqb_eq in H. rewrite H. reflexivity.
Qed.

Lemma normalize_type (d : OpDict) :
  op_type (_normalize_operation d) = get (d_type d) "retain"%string.
Proof.
  unfold _normalize_operation.
  destruct (is_insert _ && _); reflexivity.
Qed.

Lemma normalize_position (d : OpDict) :
  op_position (_normalize_operation d) = get (d_position d) 0.
Proof.
  unfold _normalize_operation.
  destruct (is_insert _ && _); reflexivity.
Qed.

Lemma normalize_content (d : OpDict) :
  op_content (_normalize_operation d) = get (d_content d) [].
Proof.
  unfold _normalize_operation.
  destruct (is_insert _ && _); reflexivity.
Qed.

Lemma normalize_length_delete (d : OpDict) :
  is_insert (_normalize_operation d) = false ->
  op_length (_normalize_operation d) = get (d_length d) 0.
Proof.
  unfold _normalize_operation.
  destruct (is_insert _ && _) eqn:E; [|reflexivity].
  apply andb_prop in E. destruct E as [E _].
  unfold is_insert in *. simpl in *. congruence.
Qed.

Lemma apply_operation_normalized (content : str) (d : OpDict) :
  apply_operation content d = apply_normalized content (_normalize_operation d).
Proof.
  unfold apply_operation, apply_normalized.
  destruct (is_insert _); [reflexivity|].
  destruct (is_delete _); [reflexivity|].
  destruct (is_retain _); reflexivity.
Qed.

(** Re-normalizing a four-key dict can only recompute the length of an
    insert, which [apply_operation] does not read. *)
Lemma apply_operation_as_dict (content : str) (o : Op) :
  apply_operation content (as_dict o) = apply_normalized content o.
Proof.
  rewrite apply_operation_normalized.
  unfold _normalize_operation, as_dict. simpl.
  destruct o as [t p c l]. unfold is_insert at 1. simpl.
  destruct (String.eqb t "insert") eqn:Et; simpl; [|reflexivity].
  destruct (l =? 0); [|reflexivity].
  unfold apply_normalized, with_length, is_insert. simpl. rewrite Et.
  reflexivity.
Qed.

Lemma len_nonneg (s : str) : 0 <= len s.
Proof. unfold len. lia. Qed.

(** Case analysis on the comparisons a transform rule branches on. *)
Ltac branch :=
  repeat match goal with
  | |- context [if ?x <=? ?y then _ else _] =>
      destruct (Z.leb_spec x y)
  | |- context [if ?x <? ?y then _ else _] =>
      destruct (Z.ltb_spec x y)
  end.

(** ** Normalization *)

(** C8 (as stated) fails: an insert that arrives with a non-zero [length]
    keeps it whatever its content is, and a type outside the three kinds is
    kept as it is. *)
Lemma normalize_invariants_counterexample :
  (let o := _normalize_operation
              (mkDict (Some "insert"%string) (Some 0) (Some (txt "ab"))
                      (Some 5) None None) in
   op_type o = "insert"%string /\ op_length o <> len (op_content o))
  /\ ~ known_kind
         (op_type (_normalize_operation
                     (mkDict (Some "replace"%string) (Some 0) None None
                             None None))).
Proof.
  split.
  - simpl. split; [reflexivity | discriminate].
  - simpl. unfold known_kind. intros [H | [H | H]]; discriminate.
Qed.

(** C8 (amended).  The kind of the normalized operation is the type of the
    input, or retain when the input has none: it is one of insert, delete,
    retain exactly when the type of the input is absent or one of these
    three.  If the kind is insert, a length that is absent or 0 is replaced
    by the length of the content and any other length is kept as given, so
    that the length equals [len(content)] exactly when the length of the
    input is absent, 0 or [len(content)] already. *)
Theorem normalize_invariants (d : OpDict) :
  op_type (_normalize_operation d) = get (d_type d) "retain"%string
  /\ (known_kind (op_type (_normalize_operation d))
      <-> d_type d = None \/ exists t, d_type d = Some t /\ known_kind t)
  /\ (op_type (_normalize_operation d) = "insert"%string ->
      (get (d_length d) 0 = 0 ->
       op_length (_normalize_operation d)
       = len (op_content (_normalize_operation d)))
      /\ (get (d_length d) 0 <> 0 ->
          op_length (_normalize_operation d) = get (d_length d) 0)
      /\ (op_length (_normalize_operation d)
          = len (op_content (_normalize_operation d))
          <-> get (d_length d) 0 = 0
              \/ get (d_length d) 0 = len (get (d_content d) []))).
Proof.
  split; [apply normalize_type|]. split.
  - rewrite normalize_type. destruct (d_type d) as [t|]; simpl.
    + split.
      * intros H. right. exists t. split; [reflexivity | exact H].
      * intros [H | (t' & E & H)]; [discriminate|].
        inversion E; subst. exact H.
    + split; [intros _; now left|].
      intros _. right. right. reflexivity.
  - rewrite normalize_type, normalize_content. intros Hi.
    unfold _normalize_operation, is_insert. simpl. rewrite Hi. simpl.
    destruct (Z.eqb_spec (get (d_length d) 0) 0) as [E|E]; simpl.
    + split; [intros _; reflexivity|]. split; [intros H; now elim H|].
      split; [intros _; now left | intros _; reflexivity].
    + split; [intros H; now elim E|]. split; [intros _; reflexivity|].
      split; [intros H; now right | intros [H|H]; [now elim E | exact H]].
Qed.

Lemma normalize_invariants_witness :
  let carried := mkDict (Some "insert"%string) (Some 1) (Some (txt "ab"))
                        (Some 2) None None in
  let kept := mkDict (Some "insert"%string) (Some 1) (Some (txt "ab"))
                     (Some 5) None None in
  op_length (_normalize_operation (insert_op 1 "X"))
  = len (op_content (_normalize_operation (insert_op 1 "X")))
  /\ op_length (_normalize_operation carried)
     = len (op_content (_normalize_operation carried))
  /\ op_length (_normalize_operation kept) = 5
  /\ known_kind (op_type (_normalize_operation
                            (mkDict None None None None None None))).
Proof.
  cbv zeta.
  destruct (normalize_invariants (insert_op 1 "X")) as (_ & _ & H1).
  destruct (normalize_invariants
              (mkDict (Some "insert"%string) (Some 1) (Some (txt "ab"))
                      (Some 2) None None)) as (_ & _ & H2).
  destruct (normalize_invariants
              (mkDict (Some "insert"%string) (Some 1) (Some (txt "ab"))
                      (Some 5) None None)) as (_ & _ & H3).
  destruct (normalize_invariants (mkDict None None None None None None))
    as (_ & H4 & _).
  split; [exact (proj1 (H1 eq_refl) eq_refl)|].
  split; [exact (proj2 (proj2 (proj2 (H2 eq_refl))) (or_intror eq_refl))|].
  split; [exact (proj1 (proj2 (H3 eq_refl)) ltac:(discriminate))|].
  exact (proj2 H4 (or_introl eq_refl)).
Defined.

(** ** Apply on the other kinds *)

(** C10.  An operation whose normalized type is neither insert nor delete,
    retain and any unrecognized type included, leaves the content as it
    is. *)
Theorem apply_other_kind_unchanged (C : str) (op : OpDict) :
  is_insert (_normalize_operation op) = false ->
  is_delete (_normalize_operation op) = false ->
  apply_operation C op = C.
Proof.
  intros Hi Hd. unfold apply_operation. rewrite Hi, Hd.
  destruct (is_retain _); reflexivity.
Qed.

Lemma apply_other_kind_unchanged_witness :
  apply_operation (txt "abc")
    (mkDict (Some "retain"%string) (Some 1) (Some (txt "X")) (Some 2)
            None None) = txt "abc"
  /\ apply_operation (txt "abc")
       (mkDict (Some "replace"%string) (Some 1) (Some (txt "X")) (Some 2)
               None None) = txt "abc"
  /\ apply_operation (txt "abc")
       (mkDict None None None None None None) = txt "abc".
Proof.
  split; [|split]; apply apply_other_kind_unchanged; reflexivity.
Defined.

(** ** Transform of two deletes *)

Lemma transform_delete_delete (a b : OpDict) :
  is_delete (_normalize_operation a) = true ->
  is_delete (_normalize_operation b) = true ->
  transform a b
  = _transform_delete_delete (_normalize_operation a) (_normalize_operation b).
Proof.
  intros Ha Hb. unfold transform.
  rewrite (delete_not_insert _ Ha), Ha, Hb. reflexivity.
Qed.

(** C6.  Two deletes whose spans overlap (neither ends at or before the
    start of the other).  If [a] starts first, [a'] keeps its position and
    gets length [b.position - a.position], and [b'] gets position
    [a.position] and length [max(0, b.length - overlap)]; if [b] starts
    first, or both start together, the same holds with the roles
    exchanged. *)
Theorem overlapping_deletes (a b : OpDict) :
  is_delete (_normalize_operation a) = true ->
  is_delete (_normalize_operation b) = true ->
  op_position (_normalize_operation b) < op_end (_normalize_operation a) ->
  op_position (_normalize_operation a) < op_end (_normalize_operation b) ->
  (op_position (_normalize_operation a) < op_position (_normalize_operation b) ->
   op1 (transform a b)
   = with_length (_normalize_operation a)
       (op_position (_normalize_operation b)
        - op_position (_normalize_operation a))
   /\ op2 (transform a b)
      = with_length
          (with_position (_normalize_operation b)
             (op_position (_normalize_operation a)))
          (Z.max 0 (op_length (_normalize_operation b)
                    - overlap (_normalize_operation a) (_normalize_operation b))))
  /\
  (op_position (_normalize_operation b) <= op_position (_normalize_operation a) ->
   op2 (transform a b)
   = with_length (_normalize_operation b)
       (op_position (_normalize_operation a)
        - op_position (_normalize_operation b))
   /\ op1 (transform a b)
      = with_length
          (with_position (_normalize_operation a)
             (op_position (_normalize_operation b)))
          (Z.max 0 (op_length (_normalize_operation a)
                    - overlap (_normalize_operation a) (_normalize_operation b)))).
Proof.
  intros Ha Hb Hab Hba.
  rewrite (transform_delete_delete a b Ha Hb).
  generalize dependent (_normalize_operation b).
  generalize dependent (_normalize_operation a).
  intros A _ B _. unfold op_end, overlap.
  intros Hab Hba.
  unfold _transform_delete_delete, _handle_overlapping_deletes, op_end.
  split; intros Hlt; branch; try lia; simpl; split; reflexivity.
Qed.

Lemma overlapping_deletes_witness :
  let a := delete_op 0 3 in
  let b := delete_op 1 3 in
  op1 (transform a b) = mkOp "delete" 0 [] 1
  /\ op2 (transform a b) = mkOp "delete" 0 [] 1
  /\ op1 (transform b a) = mkOp "delete" 0 [] 1
  /\ op2 (transform b a) = mkOp "delete" 0 [] 1.
Proof.
  assert (H := overlapping_deletes (delete_op 0 3) (delete_op 1 3)
                 eq_refl eq_refl eq_refl eq_refl).
  assert (H' := overlapping_deletes (delete_op 1 3) (delete_op 0 3)
                  eq_refl eq_refl eq_refl eq_refl).
  destruct H as [H _]. destruct H' as [_ H'].
  destruct (H eq_refl) as [H1 H2].
  destruct (H' ltac:(simpl; lia)) as [H3 H4].
  cbv zeta. split; [exact H1|]. split; [exact H2|].
  split; [exact H4 | exact H3].
Defined.

(** ** Signs *)

(** C9.  When both normalized operations have a non-negative position and
    length, so do both operations [transform] returns. *)
Theorem transform_nonneg (a b : OpDict) :
  nonneg (_normalize_operation a) ->
  nonneg (_normalize_operation b) ->
  nonneg (op1 (transform a b)) /\ nonneg (op2 (transform a b)).
Proof.
  unfold transform.
  generalize (_normalize_operation a) (_normalize_operation b).
  intros A B [HA1 HA2] [HB1 HB2].
  pose proof (len_nonneg (op_content A)).
  pose proof (len_nonneg (op_content B)).
  unfold nonneg.
  destruct (is_insert A && is_insert B);
    [unfold _transform_insert_insert; branch; simpl; lia|].
  destruct (is_delete A && is_delete B);
    [unfold _transform_delete_delete, _handle_overlapping_deletes;
     branch; simpl; lia|].
  destruct (is_insert A && is_delete B);
    [unfold _transform_insert_delete; branch; simpl; lia|].
  destruct (is_delete A && is_insert B);
    [unfold _transform_insert_delete; branch; simpl; lia|].
  simpl. lia.
Qed.

Lemma transform_nonneg_witness :
  nonneg (op1 (transform (delete_op 0 5) (delete_op 1 2)))
  /\ nonneg (op2 (transform (delete_op 0 5) (delete_op 1 2))).
Proof.
  apply (transform_nonneg (delete_op 0 5) (delete_op 1 2));
    unfold nonneg; simpl; lia.
Defined.

(** ** Slices of a concatenation *)

Lemma len_app (x y : str) : len (x ++ y) = len x + len y.
Proof. unfold len. rewrite length_app. lia. Qed.

Lemma slice_to_app (x y : str) : slice_to (x ++ y) (len x) = x.
Proof.
  unfold slice_to, len.
  destruct (Z.ltb_spec (Z.of_nat (List.length x)) 0); [lia|].
  rewrite Nat2Z.id.
  induction x as [|c x IH]; simpl.
  - reflexivity.
  - f_equal. apply IH. lia.
Qed.

Lemma slice_from_app (x y : str) : slice_from (x ++ y) (len x) = y.
Proof.
  unfold slice_from, len.
  destruct (Z.ltb_spec (Z.of_nat (List.length x)) 0); [lia|].
  rewrite Nat2Z.id.
  induction x as [|c x IH]; simpl.
  - reflexivity.
  - apply IH. lia.
Qed.

Lemma slice_split (C : str) (p : Z) :
  0 <= p <= len C -> exists x y, C = x ++ y /\ len x = p.
Proof.
  intros Hp. exists (firstn (Z.to_nat p) C), (skipn (Z.to_nat p) C).
  split.
  - symmetry. apply firstn_skipn.
  - unfold len in *. rewrite length_firstn. lia.
Qed.

Lemma len_slice_to (C : str) (p : Z) :
  0 <= p <= len C -> len (slice_to C p) = p.
Proof.
  intros Hp. destruct (slice_split C p Hp) as (x & y & -> & <-).
  now rewrite slice_to_app.
Qed.

Lemma len_slice_from (C : str) (p : Z) :
  0 <= p <= len C -> len (slice_from C p) = len C - p.
Proof.
  intros Hp. destruct (slice_split C p Hp) as (x & y & -> & <-).
  rewrite slice_from_app, len_app. lia.
Qed.

(** ** Apply on a content cut into pieces *)

Lemma apply_insert_at (C x y : str) (o : Op) :
  C = x ++ y ->
  is_insert o = true ->
  Z.max 0 (Z.min (op_position o) (len C)) = len x ->
  apply_normalized C o = x ++ op_content o ++ y.
Proof.
  intros -> Hi Hp. unfold apply_normalized. rewrite Hi. cbv zeta.
  rewrite Hp, slice_to_app, slice_from_app. reflexivity.
Qed.

Lemma apply_delete_at (C x d y : str) (o : Op) :
  C = x ++ d ++ y ->
  is_delete o = true ->
  Z.max 0 (Z.min (op_position o) (len C)) = len x ->
  Z.max (len x) (Z.min (len x + op_length o) (len C)) = len x + len d ->
  apply_normalized C o = x ++ y.
Proof.
  intros -> Hd Hp He. unfold apply_normalized.
  rewrite (delete_not_insert _ Hd), Hd. cbv zeta.
  rewrite Hp, He, slice_to_app.
  rewrite <- len_app, app_assoc, slice_from_app. reflexivity.
Qed.

Lemma apply_other (C : str) (o : Op) :
  is_insert o = false -> is_delete o = false -> apply_normalized C o = C.
Proof. intros Hi Hd. unfold apply_normalized. now rewrite Hi, Hd. Qed.

(** Side conditions of the two lemmas above. *)
Ltac pieces :=
  first
    [ assumption
    | progress (repeat rewrite <- app_assoc); reflexivity
    | reflexivity
    | simpl; unfold len in *; repeat rewrite length_app in *; lia ].

(** Rewrite one [apply_normalized] of the goal, given the pieces of its
    content. *)
Ltac ins x y :=
  match goal with
  | |- context [apply_normalized ?C ?o] =>
      rewrite (apply_insert_at C x y o) by pieces
  end.

Ltac del x d y :=
  match goal with
  | |- context [apply_normalized ?C ?o] =>
      rewrite (apply_delete_at C x d y o) by pieces
  end.

(** Cut a content at a position. *)
Ltac cut_at C p x y H :=
  destruct (slice_split C p ltac:(lia)) as (x & y & -> & H);
  rewrite len_app in *.

(** ** Length of the result of apply *)

(** C5 (as stated) fails on a delete with a negative length: it removes
    nothing, where the formula of the claim adds to the length. *)
Lemma apply_length_counterexample :
  is_delete (_normalize_operation (delete_op 1 (-1))) = true
  /\ 0 <= op_position (_normalize_operation (delete_op 1 (-1)))
          <= len (txt "abc")
  /\ len (apply_operation (txt "abc") (delete_op 1 (-1)))
     <> len (txt "abc")
        - Z.min (op_length (_normalize_operation (delete_op 1 (-1))))
                (len (txt "abc")
                 - op_position (_normalize_operation (delete_op 1 (-1)))).
Proof.
  split; [reflexivity|]. split; [vm_compute; split; discriminate|].
  vm_compute. discriminate.
Qed.

(** C5 (amended).  [apply_operation] is a total function; on an insert the
    length grows by the length of the inserted content, whatever the
    position; on a delete with position in [[0, len(C)]] it shrinks by
    [max(0, min(length, len(C) - position))], which is
    [min(length, len(C) - position)] when the length is not negative. *)
Theorem apply_length (C : str) (op : OpDict) :
  (is_insert (_normalize_operation op) = true ->
   len (apply_operation C op)
   = len C + len (op_content (_normalize_operation op)))
  /\
  (is_delete (_normalize_operation op) = true ->
   0 <= op_position (_normalize_operation op) <= len C ->
   len (apply_operation C op)
   = len C - Z.max 0 (Z.min (op_length (_normalize_operation op))
                            (len C - op_position (_normalize_operation op))))
  /\
  (is_delete (_normalize_operation op) = true ->
   0 <= op_position (_normalize_operation op) <= len C ->
   0 <= op_length (_normalize_operation op) ->
   len (apply_operation C op)
   = len C - Z.min (op_length (_normalize_operation op))
                   (len C - op_position (_normalize_operation op))).
Proof.
  rewrite apply_operation_normalized.
  generalize (_normalize_operation op). intros o.
  pose proof (len_nonneg C) as HC.
  assert (Hdel : is_delete o = true -> 0 <= op_position o <= len C ->
                 len (apply_normalized C o)
                 = len C - Z.max 0 (Z.min (op_length o)
                                          (len C - op_position o))).
  { intros Hd Hp. unfold apply_normalized.
    rewrite (delete_not_insert _ Hd), Hd. cbv zeta.
    rewrite len_app, len_slice_to, len_slice_from by lia. lia. }
  split; [|split].
  - intros Hi. unfold apply_normalized. rewrite Hi. cbv zeta.
    rewrite !len_app, len_slice_to, len_slice_from by lia. lia.
  - exact Hdel.
  - intros Hd Hp Hl. rewrite (Hdel Hd Hp). lia.
Qed.

(** ** Inversion *)

(** C4 (as stated) fails.  An insert past the end of the content is applied
    at the end, and its inverse, a delete at the position as given, then
    finds nothing to remove.  The inverse of a delete is an insert of the
    empty string, whether the delete carries the removed text in [content]
    or in [deleted_content]. *)
Lemma invert_roundtrip_counterexample :
  apply_operation (apply_operation (txt "abc") (insert_op 10 "X"))
    (as_dict (invert_operation (insert_op 10 "X"))) <> txt "abc"
  /\ (let op := mkDict (Some "delete"%string) (Some 1) (Some (txt "b"))
                       (Some 1) None None in
      apply_operation (txt "abc") op = txt "ac"
      /\ apply_operation (apply_operation (txt "abc") op)
           (as_dict (invert_operation op)) <> txt "abc")
  /\ (let op := mkDict (Some "delete"%string) (Some 1) (Some (txt "b"))
                       (Some 1) (Some (txt "b")) None in
      apply_operation (apply_operation (txt "abc") op)
        (as_dict (invert_operation op)) <> txt "abc").
Proof.
  split; [vm_compute; discriminate|].
  split; [split; [reflexivity | vm_compute; discriminate]|].
  vm_compute; discriminate.
Qed.

(** C4 (amended).  For every content [C] and every insert whose position is
    at most [len(C)], applying the insert and then its inverse gives [C]
    back. *)
Theorem invert_insert_roundtrip (C : str) (op : OpDict) :
  is_insert (_normalize_operation op) = true ->
  op_position (_normalize_operation op) <= len C ->
  apply_operation (apply_operation C op) (as_dict (invert_operation op)) = C.
Proof.
  intros Hi Hp.
  rewrite apply_operation_as_dict, apply_operation_normalized.
  unfold invert_operation. rewrite Hi.
  generalize dependent (_normalize_operation op). intros o Hi Hp.
  pose proof (len_nonneg C) as HC.
  destruct (slice_split C (Z.max 0 (op_position o)) ltac:(lia))
    as (x & y & -> & Hx).
  pose proof (len_nonneg (op_content o)).
  rewrite len_app in *.
  rewrite (apply_insert_at (x ++ y) x y o) by pieces.
  rewrite (apply_delete_at _ x (op_content o) y) by pieces.
  reflexivity.
Qed.

Lemma invert_insert_roundtrip_witness :
  apply_operation (apply_operation (txt "abc") (insert_op 1 "XY"))
    (as_dict (invert_operation (insert_op 1 "XY"))) = txt "abc".
Proof.
  apply (invert_insert_roundtrip (txt "abc") (insert_op 1 "XY")).
  - reflexivity.
  - vm_compute. discriminate.
Defined.

(** ** Convergence *)

Lemma fits_spec (a : OpDict) (C : str) :
  fits a C = true ->
  0 <= op_position (_normalize_operation a) <= len C
  /\ (is_delete (_normalize_operation a) = true ->
      0 <= op_length (_normalize_operation a)
      /\ op_end (_normalize_operation a) <= len C).
Proof.
  unfold fits, validate_operation, op_end.
  generalize (_normalize_operation a). intros o H.
  apply andb_prop in H. destruct H as [Hv Hl].
  destruct (Z.ltb_spec (op_position o) 0); [discriminate|].
  destruct (Z.ltb_spec (len C) (op_position o)); [discriminate|].
  simpl in Hv. split; [lia|]. intros Hd. rewrite Hd in *. simpl in *.
  destruct (Z.ltb_spec (len C) (op_position o + op_length o));
    [discriminate|].
  apply Z.leb_le in Hl. lia.
Qed.

Lemma converge_insert_insert (C : str) (A B : Op) :
  is_insert A = true -> is_insert B = true ->
  0 <= op_position A <= len C -> 0 <= op_position B <= len C ->
  apply_normalized (apply_normalized C A) (op2 (_transform_insert_insert A B))
  = apply_normalized (apply_normalized C B)
      (op1 (_transform_insert_insert A B)).
Proof.
  intros HA HB HpA HpB. unfold _transform_insert_insert.
  destruct (Z.leb_spec (op_position A) (op_position B)); simpl.
  - cut_at C (op_position A) x r Hx.
    cut_at r (op_position B - op_position A) y z Hy.
    ins x (y ++ z). ins (x ++ op_content A ++ y) z.
    ins (x ++ y) z. ins x (y ++ op_content B ++ z).
    simpl. pieces.
  - cut_at C (op_position B) x r Hx.
    cut_at r (op_position A - op_position B) y z Hy.
    ins (x ++ y) z. ins x (y ++ op_content A ++ z).
    ins x (y ++ z). ins (x ++ op_content B ++ y) z.
    simpl. pieces.
Qed.

Lemma converge_delete_delete (C : str) (A B : Op) :
  is_delete A = true -> is_delete B = true ->
  0 <= op_position A -> 0 <= op_length A -> op_end A <= len C ->
  0 <= op_position B -> 0 <= op_length B -> op_end B <= len C ->
  convergent A B = true ->
  apply_normalized (apply_normalized C A) (op2 (_transform_delete_delete A B))
  = apply_normalized (apply_normalized C B)
      (op1 (_transform_delete_delete A B)).
Proof.
  intros HA HB HpA HlA HeA HpB HlB HeB Hc.
  unfold convergent in Hc. rewrite HA, HB in Hc. simpl in Hc.
  unfold _transform_delete_delete, _handle_overlapping_deletes.
  unfold op_end in *.
  destruct (Z.leb_spec (op_position A + op_length A) (op_position B));
    [|destruct (Z.leb_spec (op_position B + op_length B) (op_position A));
      [|destruct (Z.ltb_spec (op_position A) (op_position B))]];
    simpl in Hc |- *.
  - (* A lies before B *)
    cut_at C (op_position A) x r Hx.
    cut_at r (op_length A) da r' Hda.
    cut_at r' (op_position B - (op_position A + op_length A)) m r'' Hm.
    cut_at r'' (op_length B) db z Hdb.
    del x da (m ++ db ++ z). del (x ++ m) db z.
    del (x ++ da ++ m) db z. del x da (m ++ z).
    pieces.
  - (* B lies before A *)
    cut_at C (op_position B) x r Hx.
    cut_at r (op_length B) db r' Hdb.
    cut_at r' (op_position A - (op_position B + op_length B)) m r'' Hm.
    cut_at r'' (op_length A) da z Hda.
    del (x ++ db ++ m) da z. del x db (m ++ z).
    del x db (m ++ da ++ z). del (x ++ m) da z.
    pieces.
  - (* A starts first and ends inside B *)
    apply Z.leb_le in Hc.
    cut_at C (op_position A) x r Hx.
    cut_at r (op_position B - op_position A) p r' Hp.
    cut_at r' (op_position A + op_length A - op_position B) o r'' Ho.
    cut_at r'' (op_position B + op_length B
                - (op_position A + op_length A)) q z Hq.
    del x (p ++ o) (q ++ z). del x q z.
    del (x ++ p) (o ++ q) z. del x p z.
    reflexivity.
  - (* B starts first, or with A, and ends inside A *)
    apply Z.leb_le in Hc.
    cut_at C (op_position B) x r Hx.
    cut_at r (op_position A - op_position B) p r' Hp.
    cut_at r' (op_position B + op_length B - op_position A) o r'' Ho.
    cut_at r'' (op_position A + op_length A
                - (op_position B + op_length B)) q z Hq.
    del (x ++ p) (o ++ q) z. del x p z.
    del x (p ++ o) (q ++ z). del x q z.
    reflexivity.
Qed.

Lemma converge_insert_delete (C : str) (I D : Op) :
  is_insert I = true -> is_delete D = true ->
  0 <= op_position I <= len C ->
  0 <= op_position D -> 0 <= op_length D -> op_end D <= len C ->
  (op_position I <=? op_position D) || (op_end D <=? op_position I) = true ->
  apply_normalized (apply_normalized C I) (op2 (_transform_insert_delete I D))
  = apply_normalized (apply_normalized C D)
      (op1 (_transform_insert_delete I D)).
Proof.
  intros HI HD HpI HpD HlD HeD Hc.
  unfold _transform_insert_delete. unfold op_end in *.
  destruct (Z.leb_spec (op_position I) (op_position D));
    [|destruct (Z.leb_spec (op_position D + op_length D) (op_position I))];
    simpl in Hc |- *; [| |discriminate].
  - (* the insert is at or before the start of the delete *)
    cut_at C (op_position I) x r Hx.
    cut_at r (op_position D - op_position I) m r' Hm.
    cut_at r' (op_length D) d z Hd.
    ins x (m ++ d ++ z). del (x ++ op_content I ++ m) d z.
    del (x ++ m) d z. ins x (m ++ z).
    pieces.
  - (* the insert is at or after the end of the delete *)
    cut_at C (op_position D) x r Hx.
    cut_at r (op_length D) d r' Hd.
    cut_at r' (op_position I - (op_position D + op_length D)) m z Hm.
    ins (x ++ d ++ m) z. del x d (m ++ op_content I ++ z).
    del x d (m ++ z). ins (x ++ m) z.
    pieces.
Qed.

Lemma converge_normalized (C : str) (A B : Op) :
  0 <= op_position A <= len C ->
  (is_delete A = true -> 0 <= op_length A /\ op_end A <= len C) ->
  0 <= op_position B <= len C ->
  (is_delete B = true -> 0 <= op_length B /\ op_end B <= len C) ->
  convergent A B = true ->
  apply_normalized (apply_normalized C A) (op2 (transform_normalized A B))
  = apply_normalized (apply_normalized C B) (op1 (transform_normalized A B)).
Proof.
  intros HpA HdA HpB HdB Hc. unfold transform_normalized.
  destruct (is_insert A) eqn:IA, (is_insert B) eqn:IB; simpl.
  - apply converge_insert_insert; assumption.
  - rewrite (insert_not_delete _ IA). simpl.
    destruct (is_delete B) eqn:DB; simpl.
    + destruct (HdB eq_refl).
      unfold convergent in Hc.
      rewrite IA, DB, (insert_not_delete _ IA) in Hc. simpl in Hc.
      apply converge_insert_delete; (assumption || lia).
    + now rewrite (apply_other _ B IB DB), (apply_other _ B IB DB).
  - rewrite (insert_not_delete _ IB).
    destruct (is_delete A) eqn:DA; simpl.
    + destruct (HdA eq_refl).
      unfold convergent in Hc.
      rewrite IA, DA, IB, (insert_not_delete _ IB) in Hc. simpl in Hc.
      symmetry. apply converge_insert_delete; (assumption || lia).
    + now rewrite (apply_other _ A IA DA), (apply_other _ A IA DA).
  - destruct (is_delete A) eqn:DA, (is_delete B) eqn:DB; simpl.
    + destruct (HdA eq_refl), (HdB eq_refl).
      apply converge_delete_delete; (assumption || lia).
    + now rewrite (apply_other _ B IB DB), (apply_other _ B IB DB).
    + now rewrite (apply_other _ A IA DA), (apply_other _ A IA DA).
    + now rewrite (apply_other _ A IA DA), (apply_other _ A IA DA).
Qed.






(** The two rules left out of [convergent] do not converge: a delete that
    starts first and reaches past the end of the other, and an insert
    strictly inside a deleted span. *)
Example containing_delete_diverges :
  let C := txt "abcdef" in
  let a := delete_op 0 5 in
  let b := delete_op 1 2 in
  fits a C = true /\ fits b C = true
  /\ apply_operation (apply_operation C a) (as_dict (op2 (transform a b)))
     = txt "f"
  /\ apply_operation (apply_operation C b) (as_dict (op1 (transform a b)))
     = txt "def".
Proof. repeat split. Qed.

Example insert_inside_delete_diverges :
  let C := txt "hello world" in
  let a := insert_op 8 "!" in
  let b := delete_op 5 6 in
  fits a C = true /\ fits b C = true
  /\ apply_operation (apply_operation C a) (as_dict (op2 (transform a b)))
     = txt "hello"
  /\ apply_operation (apply_operation C b) (as_dict (op1 (transform a b)))
     = txt "hello!".
Proof. repeat split. Qed.

(** ** The hub *)

Example hub_aef_reached :
  submits positive_fields empty_hub
    [(1, insert_op 0 "abcdef"); (1, delete_op 1 3)] = Some hub_aef.
Proof. reflexivity. Qed.

Lemma slice_to_from (C : str) (p : Z) : slice_to C p ++ slice_from C p = C.
Proof.
  unfold slice_to, slice_from. destruct (p <? 0); apply firstn_skipn.
Qed.

(** The row written by a successful submit normalizes to the operation
    that was applied. *)
Lemma normalize_row (t : OpDict) (ty : string) (pos user version : Z) :
  d_type t = Some ty -> d_position t = Some pos ->
  _normalize_operation
    (to_dict (mkOperation ty pos (get (d_content t) []) (get (d_length t) 0)
                          user version))
  = _normalize_operation t.
Proof.
  intros Hty Hpos. unfold _normalize_operation, to_dict. simpl.
  rewrite Hty, Hpos. reflexivity.
Qed.

(** What a successful submit returns and leaves behind. *)
Lemma submit_success (db_accepts : Operation -> bool) (st : Hub) (user : Z)
    (operation : OpDict) (r : Applied) (st' : Hub) :
  apply_operation_with_transform db_accepts st user operation = (Some r, st') ->
  exists ty pos,
    d_type (transformed_op st user operation) = Some ty
    /\ d_position (transformed_op st user operation) = Some pos
    /\ r = {| r_operation := transformed_op st user operation;
              r_version := doc_version (document st) + 1 |}
    /\ st' = {| document :=
                  {| doc_content :=
                       apply_operation (doc_content (document st))
                         (transformed_op st user operation);
                     doc_version := doc_version (document st) + 1 |};
                operations :=
                  operations st
                  ++ [mkOperation ty pos
                        (get (d_content (transformed_op st user operation)) [])
                        (get (d_length (transformed_op st user operation)) 0)
                        user (doc_version (document st) + 1)] |}.
Proof.
  unfold apply_operation_with_transform.
  destruct (d_type _) as [ty|]; [|discriminate].
  destruct (d_position _) as [pos|]; [|discriminate].
  destruct (db_accepts _); [|discriminate].
  intros H. inversion H; subst. exists ty, pos. repeat split.
Qed.

(** A failed submit writes no row. *)
Lemma failed_submit_keeps_log (db_accepts : Operation -> bool) (st : Hub)
    (user : Z) (operation : OpDict) (st' : Hub) :
  apply_operation_with_transform db_accepts st user operation = (None, st') ->
  operations st' = operations st.
Proof.
  unfold apply_operation_with_transform.
  destruct (d_type _); [destruct (d_position _); [destruct (db_accepts _)|]|];
    intros H; inversion H; reflexivity.
Qed.






(** C2 (as stated) fails: the submit path never calls
    [validate_operation].  User 2, on version 1, inserts at position 10;
    transformed against the pending delete the insert lands at position 7,
    which [validate_operation] refuses for a content of length 3, and the
    submit goes through: content, version and rows all change, and the
    operation is broadcast and acknowledged. *)
Lemma submit_validation_counterexample :
  let op := at_version 1 (insert_op 10 "X") in
  transformed_op hub_aef 2 op = as_dict (mkOp "insert" 7 (txt "X") 1)
  /\ validate_operation (transformed_op hub_aef 2 op)
       (len (doc_content (document hub_aef))) = false
  /\ handle_operation positive_fields hub_aef 2 20 (Some op)
     = ([operation_broadcast_event (transformed_op hub_aef 2 op) 3 2 20;
         operation_ack 3],
        {| document := {| doc_content := txt "aefX"; doc_version := 3 |};
           operations :=
             operations hub_aef
             ++ [mkOperation "insert" 7 (txt "X") 1 2 3] |}).
Proof. repeat split. Qed.

(** C2 (amended).  No validation takes place.  Whenever a submit succeeds,
    and it may for an operation that [validate_operation] refuses, the
    content is the result of applying the transformed operation, the version
    has grown by one, and the rows have gained exactly one, which holds the
    transformed operation under the new version and is written after the
    content was computed. *)
Theorem submit_applies_unvalidated (db_accepts : Operation -> bool)
    (st : Hub) (user : Z) (operation : OpDict) (r : Applied) (st' : Hub) :
  apply_operation_with_transform db_accepts st user operation = (Some r, st') ->
  r_operation r = transformed_op st user operation
  /\ r_version r = doc_version (document st) + 1
  /\ doc_content (document st')
     = apply_operation (doc_content (document st))
         (transformed_op st user operation)
  /\ doc_version (document st') = doc_version (document st) + 1
  /\ exists row,
       operations st' = operations st ++ [row]
       /\ _normalize_operation (to_dict row)
          = _normalize_operation (transformed_op st user operation)
       /\ o_user row = user
       /\ o_version row = doc_version (document st) + 1.
Proof.
  intros H.
  destruct (submit_success _ _ _ _ _ _ H)
    as (ty & pos & Hty & Hpos & -> & ->).
  simpl. repeat (split; [reflexivity|]).
  eexists. split; [reflexivity|].
  split; [apply normalize_row; assumption|]. split; reflexivity.
Qed.

Lemma submit_applies_unvalidated_witness :
  let op := at_version 1 (insert_op 10 "X") in
  let st' :=
    {| document := {| doc_content := txt "aefX"; doc_version := 3 |};
       operations :=
         operations hub_aef ++ [mkOperation "insert" 7 (txt "X") 1 2 3] |} in
  validate_operation (transformed_op hub_aef 2 op)
    (len (doc_content (document hub_aef))) = false
  /\ doc_content (document st')
     = apply_operation (doc_content (document hub_aef))
         (transformed_op hub_aef 2 op)
  /\ doc_version (document st') = doc_version (document hub_aef) + 1
  /\ exists row,
       operations st' = operations hub_aef ++ [row]
       /\ _normalize_operation (to_dict row)
          = _normalize_operation (transformed_op hub_aef 2 op)
       /\ o_user row = 2
       /\ o_version row = doc_version (document hub_aef) + 1.
Proof.
  cbv zeta. split; [reflexivity|].
  apply (submit_applies_unvalidated positive_fields hub_aef 2
           (at_version 1 (insert_op 10 "X"))
           {| r_operation :=
                transformed_op hub_aef 2 (at_version 1 (insert_op 10 "X"));
              r_version := 3 |}).
  reflexivity.
Defined.

(** A normalized insert of length 0 has no content. *)
Lemma normalize_insert_zero (d : OpDict) :
  is_insert (_normalize_operation d) = true ->
  op_length (_normalize_operation d) = 0 ->
  op_content (_normalize_operation d) = [].
Proof.
  unfold _normalize_operation.
  destruct (is_insert _ && _) eqn:E; simpl.
  - intros _ H. destruct (get (d_content d) []); [reflexivity|].
    unfold len in H. simpl in H. lia.
  - intros Hi H. unfold is_insert in *. simpl in *.
    rewrite Hi, H in E. discriminate.
Qed.

(** An operation of normalized length 0 changes nothing when applied. *)
Lemma apply_zero_length (C : str) (d : OpDict) :
  op_length (_normalize_operation d) = 0 -> apply_operation C d = C.
Proof.
  intros H. rewrite apply_operation_normalized. unfold apply_normalized.
  destruct (is_insert (_normalize_operation d)) eqn:Hi.
  - rewrite (normalize_insert_zero d Hi H). simpl. apply slice_to_from.
  - destruct (is_delete _); [|reflexivity]. cbv zeta. rewrite H.
    replace (Z.max _ (Z.min (_ + 0) _))
      with (Z.max 0 (Z.min (op_position (_normalize_operation d)) (len C)))
      by (pose proof (len_nonneg C); lia).
    apply slice_to_from.
Qed.




(** ** Composition *)

Lemma apply_all_as_dict (l : list Op) (C : str) :
  apply_all C (map as_dict l) = fold_left apply_normalized l C.
Proof.
  unfold apply_all. revert C.
  induction l as [|o l IH]; simpl; intros C; [reflexivity|].
  rewrite apply_operation_as_dict. apply IH.
Qed.

Lemma apply_all_normalized (ops : list OpDict) (C : str) :
  apply_all C ops = fold_left apply_normalized (map _normalize_operation ops) C.
Proof.
  unfold apply_all. revert C.
  induction ops as [|o l IH]; simpl; intros C; [reflexivity|].
  rewrite apply_operation_normalized. apply IH.
Qed.

(** Two inserts that merge act like the merged insert. *)
Lemma merged_insert_apply (C : str) (a b : Op) :
  is_insert a = true -> is_insert b = true ->
  0 <= op_position a ->
  op_position a + len (op_content a) = op_position b ->
  apply_normalized C (merged_insert a b)
  = apply_normalized (apply_normalized C a) b.
Proof.
  intros Ha Hb Hp Hab. pose proof (len_nonneg C) as HC.
  destruct (slice_split C (Z.min (op_position a) (len C)) ltac:(lia))
    as (x & y & -> & Hx).
  rewrite len_app in *.
  rewrite (apply_insert_at (x ++ y) x y (merged_insert a b)) by pieces.
  rewrite (apply_insert_at (x ++ y) x y a) by pieces.
  rewrite (apply_insert_at _ (x ++ op_content a) y b) by pieces.
  simpl. pieces.
Qed.

(** Two deletes that merge act like the merged delete. *)
Lemma merged_delete_apply (C : str) (a b : Op) :
  is_delete a = true -> is_delete b = true ->
  0 <= op_length a -> 0 <= op_length b ->
  op_position a = op_position b ->
  apply_normalized C (merged_delete a b)
  = apply_normalized (apply_normalized C a) b.
Proof.
  intros Ha Hb Hla Hlb Hab. pose proof (len_nonneg C) as HC.
  destruct (slice_split C (Z.max 0 (Z.min (op_position a) (len C)))
              ltac:(lia)) as (x & r & -> & Hx).
  rewrite len_app in *. pose proof (len_nonneg r) as Hr.
  destruct (slice_split r (Z.min (op_length a) (len r)) ltac:(lia))
    as (d1 & r' & -> & Hd1).
  rewrite len_app in *. pose proof (len_nonneg r') as Hr'.
  destruct (slice_split r' (Z.min (op_length b) (len r')) ltac:(lia))
    as (d2 & y & -> & Hd2).
  rewrite len_app in *.
  rewrite (apply_delete_at _ x (d1 ++ d2) y (merged_delete a b)) by pieces.
  rewrite (apply_delete_at _ x d1 (d2 ++ y) a) by pieces.
  rewrite (apply_delete_at _ x d2 y b) by pieces.
  reflexivity.
Qed.

Lemma merged_insert_mergeable (a b : Op) :
  mergeable_op a -> is_insert a = true -> mergeable_op (merged_insert a b).
Proof.
  intros [Hi _] Ha. split; simpl; [intros _; auto | discriminate].
Qed.

Lemma merged_delete_mergeable (a b : Op) :
  mergeable_op a -> mergeable_op b ->
  is_delete a = true -> is_delete b = true ->
  mergeable_op (merged_delete a b).
Proof.
  intros [_ Ha] [_ Hb] Da Db. split; simpl; [discriminate|].
  intros _. specialize (Ha Da). specialize (Hb Db). lia.
Qed.

Lemma mergeable_spec (d : OpDict) :
  mergeable d = true -> mergeable_op (_normalize_operation d).
Proof.
  unfold mergeable, mergeable_op. intros H.
  apply andb_prop in H. destruct H as [H1 H2].
  split; intros E; rewrite E in *; simpl in *; now apply Z.leb_le.
Qed.

(** One turn of the loop appends the effect of the operation. *)
Lemma compose_step_apply (composed : list Op) (op : OpDict) (C : str) :
  Forall mergeable_op composed -> mergeable_op (_normalize_operation op) ->
  fold_left apply_normalized (compose_step composed op) C
  = apply_normalized (fold_left apply_normalized composed C)
      (_normalize_operation op)
  /\ Forall mergeable_op (compose_step composed op).
Proof.
  intros Hall Hop. unfold compose_step.
  destruct (rev composed) as [|last_op before] eqn:E.
  - apply (f_equal (@rev Op)) in E. rewrite rev_involutive in E. subst.
    simpl. split; [reflexivity | constructor; [assumption | constructor]].
  - apply (f_equal (@rev Op)) in E. rewrite rev_involutive in E. simpl in E.
    subst composed. rewrite removelast_last.
    apply Forall_app in Hall. destruct Hall as [Hb Hl].
    inversion Hl as [|? ? Hlast _]; subst.
    rewrite fold_left_app. simpl.
    destruct (is_insert last_op && is_insert _ && _) eqn:Ei.
    + apply andb_prop in Ei. destruct Ei as [Ei Ep].
      apply andb_prop in Ei. destruct Ei as [Ei1 Ei2].
      apply Z.eqb_eq in Ep.
      rewrite fold_left_app. simpl. split.
      * apply merged_insert_apply; try assumption.
        destruct Hlast as [Hlast _]. auto.
      * apply Forall_app. split; [assumption|].
        constructor; [|constructor].
        apply merged_insert_mergeable; assumption.
    + destruct (is_delete last_op && is_delete _ && _) eqn:Ed.
      * apply andb_prop in Ed. destruct Ed as [Ed Ep].
        apply andb_prop in Ed. destruct Ed as [Ed1 Ed2].
        apply Z.eqb_eq in Ep.
        rewrite fold_left_app. simpl. split.
        -- apply merged_delete_apply; try assumption.
           ++ destruct Hlast as [_ Hlast]. auto.
           ++ destruct Hop as [_ Hop]. auto.
        -- apply Forall_app. split; [assumption|].
           constructor; [|constructor].
           apply merged_delete_mergeable; assumption.
      * rewrite !fold_left_app. simpl. split; [reflexivity|].
        apply Forall_app. split.
        -- apply Forall_app. split; [assumption | constructor; auto].
        -- constructor; [assumption | constructor].
Qed.

Lemma compose_fold_apply (ops : list OpDict) :
  forall (composed : list Op) (C : str),
    Forall mergeable_op composed -> forallb mergeable ops = true ->
    fold_left apply_normalized (fold_left compose_step ops composed) C
    = apply_all (fold_left apply_normalized composed C) ops.
Proof.
  induction ops as [|op ops IH]; simpl; intros composed C Hc Hops.
  - reflexivity.
  - apply andb_prop in Hops. destruct Hops as [Hop Hops].
    destruct (compose_step_apply composed op C Hc (mergeable_spec _ Hop))
      as [Hstep Hc'].
    rewrite (IH _ C Hc' Hops), Hstep, apply_operation_normalized.
    reflexivity.
Qed.

(** X1.  Applying the composed list has the effect of applying the
    operations one after another, when no insert is placed before
    position 0 and no delete has a negative length. *)
Theorem compose_preserves_apply (ops : list OpDict) (C : str) :
  forallb mergeable ops = true ->
  apply_all C (map as_dict (compose_operations ops)) = apply_all C ops.
Proof.
  intros H. rewrite apply_all_as_dict. unfold compose_operations.
  destruct ops as [|op ops]; [reflexivity|].
  apply (compose_fold_apply (op :: ops) [] C); [constructor | exact H].
Qed.

Lemma compose_preserves_apply_witness :
  let ops := [insert_op 1 "X"; insert_op 2 "Y"; delete_op 0 1;
              delete_op 0 1; insert_op 9 "Z"] in
  compose_operations ops
  = [mkOp "insert" 1 (txt "XY") 2; mkOp "delete" 0 [] 2;
     mkOp "insert" 9 (txt "Z") 1]
  /\ apply_all (txt "abc") (map as_dict (compose_operations ops))
     = apply_all (txt "abc") ops.
Proof.
  cbv zeta. split; [reflexivity|].
  apply (compose_preserves_apply
           [insert_op 1 "X"; insert_op 2 "Y"; delete_op 0 1;
            delete_op 0 1; insert_op 9 "Z"] (txt "abc")).
  reflexivity.
Defined.

Lemma len_zero (s : str) : len s = 0 -> s = [].
Proof. destruct s; [reflexivity|]. unfold len. simpl. lia. Qed.

Lemma normalize_settled (d : OpDict) : settled (_normalize_operation d).
Proof. unfold settled. apply normalize_insert_zero. Qed.

Lemma normalize_as_dict (o : Op) :
  settled o -> _normalize_operation (as_dict o) = o.
Proof.
  intros H. unfold _normalize_operation, as_dict. simpl.
  destruct o as [t p c l]. unfold settled, is_insert in *. simpl in *.
  destruct (String.eqb t "insert"); simpl; [|reflexivity].
  destruct (Z.eqb_spec l 0); [|reflexivity].
  subst. unfold with_length. simpl. now rewrite (H eq_refl eq_refl).
Qed.

Lemma merges_same_head (p a c : Op) :
  is_insert c = is_insert a -> is_delete c = is_delete a ->
  op_position c = op_position a ->
  merges p c = merges p a.
Proof. unfold merges. now intros -> -> ->. Qed.

Lemma merged_replace_last (l : list Op) (a c : Op) :
  (forall p, merges p c = merges p a) ->
  merged (l ++ [a]) -> merged (l ++ [c]).
Proof.
  intros H. induction l as [|p l IH]; simpl; [trivial|].
  destruct l as [|q l]; simpl in *.
  - rewrite H. trivial.
  - intros [Hpq Hrest]. split; [assumption | apply IH; assumption].
Qed.

Lemma merged_snoc (l : list Op) (a b : Op) :
  merged (l ++ [a]) -> merges a b = false -> merged ((l ++ [a]) ++ [b]).
Proof.
  intros Hm Hab. induction l as [|p l IH]; simpl in *; [auto|].
  destruct l as [|q l]; simpl in *.
  - destruct Hm as [Hpa _]. auto.
  - destruct Hm as [Hpq Hrest]. split; [assumption | apply IH; assumption].
Qed.

Lemma merged_middle (l r : list Op) (a b : Op) :
  merged (l ++ a :: b :: r) -> merges a b = false.
Proof.
  induction l as [|p l IH]; simpl.
  - intros [H _]. exact H.
  - destruct l as [|q l]; simpl in *; intros [_ H]; apply IH; exact H.
Qed.

(** One turn of the loop keeps the list free of mergeable neighbours. *)
Lemma compose_step_merged (composed : list Op) (op : OpDict) :
  merged composed -> Forall settled composed ->
  merged (compose_step composed op)
  /\ Forall settled (compose_step composed op).
Proof.
  intros Hm Hs. unfold compose_step.
  pose proof (normalize_settled op) as Hn.
  destruct (rev composed) as [|last_op before] eqn:E.
  - simpl. split; [trivial | constructor; [assumption | constructor]].
  - apply (f_equal (@rev Op)) in E. rewrite rev_involutive in E. simpl in E.
    subst composed. rewrite removelast_last.
    apply Forall_app in Hs. destruct Hs as [Hb Hl].
    destruct (is_insert last_op && is_insert _ && _) eqn:Ei.
    + apply andb_prop in Ei. destruct Ei as [Ei _].
      apply andb_prop in Ei. destruct Ei as [Ei1 _]. split.
      * apply (merged_replace_last _ last_op); [|assumption].
        intros p. apply merges_same_head; simpl; try reflexivity.
        -- now rewrite Ei1.
        -- now rewrite (insert_not_delete _ Ei1).
      * apply Forall_app. split; [assumption|].
        constructor; [|constructor].
        unfold settled. simpl. intros _ H0.
        pose proof (len_nonneg (op_content last_op)).
        pose proof (len_nonneg (op_content (_normalize_operation op))).
        rewrite (len_zero (op_content last_op)) by lia.
        rewrite (len_zero (op_content (_normalize_operation op))) by lia.
        reflexivity.
    + destruct (is_delete last_op && is_delete _ && _) eqn:Ed.
      * apply andb_prop in Ed. destruct Ed as [Ed _].
        apply andb_prop in Ed. destruct Ed as [Ed1 _]. split.
        -- apply (merged_replace_last _ last_op); [|assumption].
           intros p. apply merges_same_head; simpl; try reflexivity.
           ++ now rewrite (delete_not_insert _ Ed1).
           ++ now rewrite Ed1.
        -- apply Forall_app. split; [assumption|].
           constructor; [|constructor]. unfold settled. discriminate.
      * split.
        -- apply merged_snoc; [assumption|].
           unfold merges. now rewrite Ei, Ed.
        -- apply Forall_app. split.
           ++ apply Forall_app. split; assumption.
           ++ constructor; [assumption | constructor].
Qed.

Lemma compose_fold_merged (ops : list OpDict) :
  forall composed, merged composed -> Forall settled composed ->
    merged (fold_left compose_step ops composed)
    /\ Forall settled (fold_left compose_step ops composed).
Proof.
  induction ops as [|op ops IH]; simpl; intros composed Hm Hs.
  - split; assumption.
  - destruct (compose_step_merged composed op Hm Hs) as [Hm' Hs'].
    apply IH; assumption.
Qed.

(** A list free of mergeable neighbours goes through the loop as it is. *)
Lemma compose_fold_fixed (l2 : list Op) :
  forall l1, merged (l1 ++ l2) -> Forall settled l2 ->
    fold_left compose_step (map as_dict l2) l1 = l1 ++ l2.
Proof.
  induction l2 as [|b l2 IH]; simpl; intros l1 Hm Hs.
  - now rewrite app_nil_r.
  - inversion Hs as [|? ? Hb Hs']; subst.
    assert (Hstep : compose_step l1 (as_dict b) = l1 ++ [b]).
    { unfold compose_step. rewrite (normalize_as_dict b Hb).
      destruct (rev l1) as [|last_op before] eqn:E.
      - apply (f_equal (@rev Op)) in E. rewrite rev_involutive in E.
        now subst.
      - apply (f_equal (@rev Op)) in E. rewrite rev_involutive in E.
        simpl in E. subst l1. rewrite <- app_assoc in Hm. simpl in Hm.
        apply merged_middle in Hm. unfold merges in Hm.
        apply orb_false_iff in Hm. destruct Hm as [H1 H2].
        now rewrite H1, H2. }
    rewrite Hstep, IH; [now rewrite <- app_assoc | | assumption].
    now rewrite <- app_assoc.
Qed.

(** X2.  Composing is idempotent: in the list [compose_operations] returns
    no operation merges into the one before it, and composing that list
    again gives it back. *)
Theorem compose_idempotent (ops : list OpDict) :
  merged (compose_operations ops)
  /\ compose_operations (map as_dict (compose_operations ops))
     = compose_operations ops.
Proof.
  assert (H : merged (compose_operations ops)
              /\ Forall settled (compose_operations ops)).
  { unfold compose_operations. destruct ops as [|op ops].
    - split; [exact I | constructor].
    - apply compose_fold_merged; [exact I | constructor]. }
  destruct H as [Hm Hs]. split; [exact Hm|].
  generalize dependent (compose_operations ops). intros l Hm Hs.
  unfold compose_operations at 1.
  destruct (map as_dict l) eqn:E.
  - destruct l; [reflexivity | discriminate].
  - rewrite <- E. apply (compose_fold_fixed l []); assumption.
Qed.

(** ** More on transform *)

(** Case analysis on the kinds of two normalized operations. *)
Ltac kinds A B :=
  let IA := fresh "IA" in let DA := fresh "DA" in
  let IB := fresh "IB" in let DB := fresh "DB" in
  destruct (is_insert A) eqn:IA;
  [ pose proof (insert_not_delete A IA) as DA | destruct (is_delete A) eqn:DA ];
  (destruct (is_insert B) eqn:IB;
   [ pose proof (insert_not_delete B IB) as DB | destruct (is_delete B) eqn:DB ]);
  rewrite ?DA, ?DB; simpl.

(** X3.  [transform] changes positions and lengths only: both results keep
    the type and the content of the operation they come from, and an insert
    keeps its length as well. *)
Theorem transform_keeps_type_content (a b : OpDict) :
  (op_type (op1 (transform a b)) = op_type (_normalize_operation a)
   /\ op_content (op1 (transform a b)) = op_content (_normalize_operation a)
   /\ (is_insert (_normalize_operation a) = true ->
       op_length (op1 (transform a b)) = op_length (_normalize_operation a)))
  /\
  (op_type (op2 (transform a b)) = op_type (_normalize_operation b)
   /\ op_content (op2 (transform a b)) = op_content (_normalize_operation b)
   /\ (is_insert (_normalize_operation b) = true ->
       op_length (op2 (transform a b)) = op_length (_normalize_operation b))).
Proof.
  unfold transform.
  generalize (_normalize_operation a) (_normalize_operation b). intros A B.
  kinds A B;
    unfold _transform_insert_insert, _transform_delete_delete,
      _handle_overlapping_deletes, _transform_insert_delete;
    branch; simpl; repeat split; intros; try reflexivity; discriminate.
Qed.

(** X4.  An operation that is neither an insert nor a delete (a retain, an
    unknown type, a dict without type) transforms nothing and is not
    transformed, on either side. *)
Theorem transform_identity (a b : OpDict) :
  is_insert (_normalize_operation b) = false ->
  is_delete (_normalize_operation b) = false ->
  transform a b
  = {| op1 := _normalize_operation a; op2 := _normalize_operation b |}
  /\ transform b a
     = {| op1 := _normalize_operation b; op2 := _normalize_operation a |}.
Proof.
  intros Hi Hd. unfold transform. rewrite Hi, Hd.
  rewrite !andb_false_r. simpl. split; reflexivity.
Qed.

Lemma transform_identity_witness :
  let retain := mkDict None (Some 4) None None None None in
  transform (insert_op 1 "X") retain
  = {| op1 := mkOp "insert" 1 (txt "X") 1; op2 := mkOp "retain" 4 [] 0 |}
  /\ transform retain (insert_op 1 "X")
     = {| op1 := mkOp "retain" 4 [] 0; op2 := mkOp "insert" 1 (txt "X") 1 |}.
Proof.
  apply (transform_identity (insert_op 1 "X")
           (mkDict None (Some 4) None None None None)); reflexivity.
Defined.

Lemma transform_normalized_swap (A B : Op) :
  op_position A <> op_position B ->
  (is_delete A = true -> 0 <= op_length A) ->
  (is_delete B = true -> 0 <= op_length B) ->
  op1 (transform_normalized B A) = op2 (transform_normalized A B)
  /\ op2 (transform_normalized B A) = op1 (transform_normalized A B).
Proof.
  unfold transform_normalized. intros Hne HA HB.
  kinds A B; try (split; reflexivity);
    try specialize (HA eq_refl); try specialize (HB eq_refl);
    unfold _transform_insert_insert, _transform_delete_delete,
      _handle_overlapping_deletes;
    branch; simpl; split;
    first [reflexivity | exfalso; lia | unfold with_length; f_equal; lia].
Qed.

(** X5.  When the two positions differ and no delete has a negative
    length, exchanging the arguments of [transform] exchanges its
    results. *)
Theorem transform_swap (a b : OpDict) :
  op_position (_normalize_operation a) <> op_position (_normalize_operation b) ->
  (is_delete (_normalize_operation a) = true ->
   0 <= op_length (_normalize_operation a)) ->
  (is_delete (_normalize_operation b) = true ->
   0 <= op_length (_normalize_operation b)) ->
  op1 (transform b a) = op2 (transform a b)
  /\ op2 (transform b a) = op1 (transform a b).
Proof.
  intros Hne HA HB.
  apply (transform_normalized_swap (_normalize_operation a)
           (_normalize_operation b)); assumption.
Qed.

Lemma transform_swap_witness :
  op1 (transform (delete_op 1 3) (delete_op 0 3))
  = op2 (transform (delete_op 0 3) (delete_op 1 3))
  /\ op2 (transform (delete_op 1 3) (delete_op 0 3))
     = op1 (transform (delete_op 0 3) (delete_op 1 3)).
Proof.
  apply (transform_swap (delete_op 0 3) (delete_op 1 3)); simpl;
    [discriminate | lia | lia].
Defined.

(** X6.  [_normalize_operation] is idempotent: normalizing the dict it
    returned gives the same dict, so an operation and its normalized form
    are transformed alike. *)
Theorem normalize_idempotent (d b : OpDict) :
  _normalize_operation (as_dict (_normalize_operation d))
  = _normalize_operation d
  /\ transform (as_dict (_normalize_operation d)) b = transform d b
  /\ transform b (as_dict (_normalize_operation d)) = transform b d.
Proof.
  assert (H : _normalize_operation (as_dict (_normalize_operation d))
              = _normalize_operation d)
    by (apply normalize_as_dict, normalize_settled).
  unfold transform. rewrite H. repeat split.
Qed.

(** ** More on apply, validate and invert *)

(** X7.  An operation that passes [validate_operation] is applied where it
    says, without clamping: a valid insert splits the content at its
    position, and a valid delete of non-negative length removes exactly
    [length] characters from its position on. *)
Theorem valid_apply_exact (C : str) (op : OpDict) :
  validate_operation op (len C) = true ->
  (is_insert (_normalize_operation op) = true ->
   exists x y,
     C = x ++ y /\ len x = op_position (_normalize_operation op)
     /\ apply_operation C op
        = x ++ op_content (_normalize_operation op) ++ y)
  /\
  (is_delete (_normalize_operation op) = true ->
   0 <= op_length (_normalize_operation op) ->
   exists x d y,
     C = x ++ d ++ y /\ len x = op_position (_normalize_operation op)
     /\ len d = op_length (_normalize_operation op)
     /\ apply_operation C op = x ++ y).
Proof.
  rewrite apply_operation_normalized. unfold validate_operation.
  generalize (_normalize_operation op). intros o Hv.
  destruct (Z.ltb_spec (op_position o) 0); [discriminate|].
  destruct (Z.ltb_spec (len C) (op_position o)); [discriminate|].
  simpl in Hv. split.
  - intros Hi. cut_at C (op_position o) x y Hx.
    exists x, y. split; [reflexivity|]. split; [assumption|].
    apply apply_insert_at; pieces.
  - intros Hd Hl. rewrite Hd in Hv. simpl in Hv.
    destruct (Z.ltb_spec (len C) (op_position o + op_length o));
      [discriminate|].
    cut_at C (op_position o) x r Hx.
    cut_at r (op_length o) d y Hd'.
    exists x, d, y. split; [reflexivity|]. split; [assumption|].
    split; [assumption|].
    apply (apply_delete_at _ x d y); pieces.
Qed.

Lemma valid_apply_exact_witness :
  (exists x y,
     txt "abc" = x ++ y /\ len x = 1
     /\ apply_operation (txt "abc") (insert_op 1 "X") = x ++ txt "X" ++ y).
Proof.
  destruct (valid_apply_exact (txt "abc") (insert_op 1 "X") eq_refl)
    as [H _].
  exact (H eq_refl).
Defined.

(** Side conditions with an empty piece. *)
Ltac edge :=
  first
    [ reflexivity
    | assumption
    | rewrite ?app_nil_r; reflexivity
    | change (len []) with 0 in *; rewrite ?len_app in *; lia ].

(** X8.  Out of range, [apply_operation] clamps instead of failing: an
    insert at or past the end appends, an insert at or before 0 prepends, a
    delete at or past the end or of length 0 or less changes nothing, and a
    delete that reaches the end or beyond cuts the content at its
    position. *)
Theorem apply_clamps (C : str) (op : OpDict) :
  (is_insert (_normalize_operation op) = true ->
   len C <= op_position (_normalize_operation op) ->
   apply_operation C op = C ++ op_content (_normalize_operation op))
  /\ (is_insert (_normalize_operation op) = true ->
      op_position (_normalize_operation op) <= 0 ->
      apply_operation C op = op_content (_normalize_operation op) ++ C)
  /\ (is_delete (_normalize_operation op) = true ->
      len C <= op_position (_normalize_operation op) ->
      apply_operation C op = C)
  /\ (is_delete (_normalize_operation op) = true ->
      op_length (_normalize_operation op) <= 0 ->
      apply_operation C op = C)
  /\ (is_delete (_normalize_operation op) = true ->
      0 <= op_position (_normalize_operation op) <= len C ->
      len C <= op_position (_normalize_operation op)
               + op_length (_normalize_operation op) ->
      apply_operation C op
      = slice_to C (op_position (_normalize_operation op))).
Proof.
  rewrite apply_operation_normalized.
  generalize (_normalize_operation op). intros o.
  pose proof (len_nonneg C) as HC.
  split; [|split; [|split; [|split]]].
  - intros Hi Hp. rewrite (apply_insert_at C C [] o) by edge.
    now rewrite app_nil_r.
  - intros Hi Hp. now rewrite (apply_insert_at C [] C o) by edge.
  - intros Hd Hp. rewrite (apply_delete_at C C [] [] o) by edge.
    now rewrite app_nil_r.
  - intros Hd Hl.
    destruct (slice_split C (Z.max 0 (Z.min (op_position o) (len C)))
                ltac:(lia)) as (x & y & -> & Hx).
    rewrite len_app in *.
    now rewrite (apply_delete_at _ x [] y o) by edge.
  - intros Hd Hp He.
    destruct (slice_split C (op_position o) Hp) as (x & y & -> & Hx).
    rewrite len_app in *. rewrite <- Hx, slice_to_app.
    rewrite (apply_delete_at _ x y [] o) by edge.
    now rewrite app_nil_r.
Qed.

(** X9.  The inverse of a delete restores nothing: whatever keys the
    delete carries, [invert_operation] returns an insert of the empty
    string at the same position, and applying it leaves every content as it
    is. *)
Theorem invert_delete_restores_nothing (C : str) (op : OpDict) :
  is_delete (_normalize_operation op) = true ->
  invert_operation op
  = mkOp "insert" (op_position (_normalize_operation op)) [] 0
  /\ apply_operation C (as_dict (invert_operation op)) = C.
Proof.
  intros Hd.
  assert (E : invert_operation op
              = mkOp "insert" (op_position (_normalize_operation op)) [] 0).
  { unfold invert_operation.
    now rewrite (delete_not_insert _ Hd), Hd. }
  split; [exact E|]. rewrite E. apply apply_zero_length.
  reflexivity.
Qed.

Lemma invert_delete_restores_nothing_witness :
  let op := mkDict (Some "delete"%string) (Some 1) (Some (txt "b"))
                   (Some 1) (Some (txt "b")) None in
  invert_operation op = mkOp "insert" 1 [] 0
  /\ apply_operation (txt "ac") (as_dict (invert_operation op)) = txt "ac".
Proof.
  apply (invert_delete_restores_nothing (txt "ac")
           (mkDict (Some "delete"%string) (Some 1) (Some (txt "b"))
                   (Some 1) (Some (txt "b")) None)).
  reflexivity.
Defined.

(** X10.  The inverse of an insert that passes [validate_operation] passes
    it on the content the insert produced. *)
Theorem invert_insert_valid (C : str) (op : OpDict) :
  is_insert (_normalize_operation op) = true ->
  validate_operation op (len C) = true ->
  validate_operation (as_dict (invert_operation op))
    (len (apply_operation C op)) = true.
Proof.
  intros Hi Hv. rewrite apply_operation_normalized.
  unfold invert_operation. rewrite Hi.
  unfold validate_operation in *.
  generalize dependent (_normalize_operation op). intros o Hi Hv.
  pose proof (len_nonneg (op_content o)).
  destruct (Z.ltb_spec (op_position o) 0); [discriminate|].
  destruct (Z.ltb_spec (len C) (op_position o)); [discriminate|].
  assert (Hlen : len (apply_normalized C o) = len C + len (op_content o)).
  { unfold apply_normalized. rewrite Hi. cbv zeta.
    rewrite !len_app, len_slice_to, len_slice_from by lia. lia. }
  rewrite Hlen.
  unfold _normalize_operation, as_dict, is_insert, is_delete. simpl.
  destruct (Z.ltb_spec (op_position o) 0); [lia|].
  destruct (Z.ltb_spec (len C + len (op_content o)) (op_position o)); [lia|].
  simpl.
  destruct (Z.ltb_spec (len C + len (op_content o))
              (op_position o + len (op_content o))); [lia | reflexivity].
Qed.

Lemma invert_insert_valid_witness :
  validate_operation (as_dict (invert_operation (insert_op 3 "XY")))
    (len (apply_operation (txt "abc") (insert_op 3 "XY"))) = true.
Proof.
  apply (invert_insert_valid (txt "abc") (insert_op 3 "XY")); reflexivity.
Defined.

(** ** Transform keeps operations valid *)

Lemma fits_as_dict (o : Op) (C : str) :
  0 <= op_position o <= len C ->
  (is_delete o = true -> 0 <= op_length o /\ op_end o <= len C) ->
  fits (as_dict o) C = true.
Proof.
  intros Hp Hd. unfold fits, validate_operation.
  assert (Ht : is_delete (_normalize_operation (as_dict o)) = is_delete o).
  { unfold is_delete. now rewrite normalize_type. }
  rewrite Ht, normalize_position. simpl.
  destruct (Z.ltb_spec (op_position o) 0); [lia|].
  destruct (Z.ltb_spec (len C) (op_position o)); [lia|]. simpl.
  destruct (is_delete o) eqn:E; simpl; [|reflexivity].
  destruct (Hd eq_refl) as [Hl He]. unfold op_end in He.
  rewrite normalize_length_delete
    by (unfold is_insert; rewrite normalize_type; simpl;
        apply (delete_not_insert o E)).
  simpl.
  destruct (Z.ltb_spec (len C) (op_position o + op_length o)); [lia|].
  simpl. now apply Z.leb_le.
Qed.

(** The length of the content after an operation that fits. *)
Lemma len_apply_fitting (C : str) (o : Op) :
  0 <= op_position o <= len C ->
  (is_delete o = true -> 0 <= op_length o /\ op_end o <= len C) ->
  len (apply_normalized C o)
  = if is_insert o then len C + len (op_content o)
    else if is_delete o then len C - op_length o
    else len C.
Proof.
  intros Hp Hd. unfold apply_normalized. pose proof (len_nonneg C).
  destruct (is_insert o).
  - cbv zeta. rewrite !len_app, len_slice_to, len_slice_from by lia. lia.
  - destruct (is_delete o); [|reflexivity].
    destruct (Hd eq_refl) as [Hl He]. unfold op_end in He. cbv zeta.
    rewrite len_app, len_slice_to, len_slice_from by lia. lia.
Qed.

Lemma transform_keeps_fit_normalized (C : str) (A B : Op) :
  is_insert A || is_delete A = true ->
  is_insert B || is_delete B = true ->
  0 <= op_position A <= len C ->
  (is_delete A = true -> 0 <= op_length A /\ op_end A <= len C) ->
  0 <= op_position B <= len C ->
  (is_delete B = true -> 0 <= op_length B /\ op_end B <= len C) ->
  fits (as_dict (op2 (transform_normalized A B))) (apply_normalized C A) = true
  /\ fits (as_dict (op1 (transform_normalized A B))) (apply_normalized C B)
     = true.
Proof.
  intros HeA HeB HpA HdA HpB HdB.
  pose proof (len_nonneg (op_content A)).
  pose proof (len_nonneg (op_content B)).
  split; apply fits_as_dict;
    rewrite len_apply_fitting by assumption;
    unfold transform_normalized, op_end in *;
    revert HeA HeB; kinds A B; intros HeA HeB; try discriminate;
    try (destruct (HdA eq_refl)); try (destruct (HdB eq_refl));
    unfold _transform_insert_insert, _transform_delete_delete,
      _handle_overlapping_deletes, _transform_insert_delete;
    branch; simpl; unfold is_delete; simpl;
    fold (is_delete A); fold (is_delete B);
    rewrite ?DA, ?DB; try lia; try (intros; discriminate);
    try (intros _; lia).
Qed.

(** X11.  [transform] keeps edits valid.  If [a] and [b] are inserts or
    deletes that pass [validate_operation] against [len(C)], deletes having
    no negative length, then [transform(a,b).second] passes it on the
    content [a] produced and [transform(a,b).first] on the content [b]
    produced, again with no negative length. *)
Theorem transform_keeps_fit (C : str) (a b : OpDict) :
  edits a = true -> edits b = true ->
  fits a C = true -> fits b C = true ->
  fits (as_dict (op2 (transform a b))) (apply_operation C a) = true
  /\ fits (as_dict (op1 (transform a b))) (apply_operation C b) = true.
Proof.
  intros Ea Eb Ha Hb.
  destruct (fits_spec a C Ha) as [HpA HdA].
  destruct (fits_spec b C Hb) as [HpB HdB].
  rewrite !apply_operation_normalized.
  change (transform a b)
    with (transform_normalized (_normalize_operation a)
                               (_normalize_operation b)).
  apply transform_keeps_fit_normalized; assumption.
Qed.

Lemma transform_keeps_fit_witness :
  let C := txt "hello world" in
  let a := insert_op 8 "!" in
  let b := delete_op 5 6 in
  fits (as_dict (op2 (transform a b))) (apply_operation C a) = true
  /\ fits (as_dict (op1 (transform a b))) (apply_operation C b) = true.
Proof.
  apply (transform_keeps_fit (txt "hello world") (insert_op 8 "!")
           (delete_op 5 6)); reflexivity.
Defined.

(** ** More on the hub *)

(** A property kept by every successful submit holds after a sequence of
    them. *)
Lemma submits_induction (db_accepts : Operation -> bool) (P : Hub -> Prop) :
  (forall st user operation r st',
      P st ->
      apply_operation_with_transform db_accepts st user operation
      = (Some r, st') -> P st') ->
  forall reqs st st',
    P st -> submits db_accepts st reqs = Some st' -> P st'.
Proof.
  intros Hstep. induction reqs as [|[user operation] rest IH]; simpl;
    intros st st' HP H.
  - now inversion H; subst.
  - destruct (apply_operation_with_transform db_accepts st user operation)
      as [[r|] st1] eqn:E; [|discriminate].
    eapply IH; [|exact H]. eapply Hstep; eassumption.
Qed.

(** X12.  A submit that fails is not undone: the document object already
    has the content with the operation applied and the version raised by
    one, and no row was written; from a state where the version was the
    number of rows, the version is then one more than the number of
    rows. *)
Theorem failed_submit_effect (db_accepts : Operation -> bool) (st : Hub)
    (user : Z) (operation : OpDict) (st' : Hub) :
  apply_operation_with_transform db_accepts st user operation = (None, st') ->
  doc_version (document st) = Z.of_nat (List.length (operations st)) ->
  operations st' = operations st
  /\ doc_content (document st')
     = apply_operation (doc_content (document st))
         (transformed_op st user operation)
  /\ doc_version (document st')
     = Z.of_nat (List.length (operations st')) + 1.
Proof.
  unfold apply_operation_with_transform. intros H Hv.
  destruct (d_type _); [destruct (d_position _); [destruct (db_accepts _)|]|];
    inversion H; subst; simpl; repeat split; lia.
Qed.

Lemma failed_submit_effect_witness :
  let op := mkDict None (Some 1) (Some (txt "X")) None None None in
  let st' := {| document := {| doc_content := txt "aef"; doc_version := 3 |};
                operations := operations hub_aef |} in
  operations st' = operations hub_aef
  /\ doc_content (document st')
     = apply_operation (doc_content (document hub_aef))
         (transformed_op hub_aef 1 op)
  /\ doc_version (document st')
     = Z.of_nat (List.length (operations st')) + 1.
Proof.
  cbv zeta.
  apply (failed_submit_effect positive_fields hub_aef 1
           (mkDict None (Some 1) (Some (txt "X")) None None None));
    reflexivity.
Defined.

(** A submit succeeds exactly when the transformed operation has the keys
    [type] and [position] and the database takes the row. *)
Theorem submit_succeeds_iff (db_accepts : Operation -> bool) (st : Hub)
    (user : Z) (operation : OpDict) :
  fst (apply_operation_with_transform db_accepts st user operation) <> None
  <->
  exists ty pos,
    d_type (transformed_op st user operation) = Some ty
    /\ d_position (transformed_op st user operation) = Some pos
    /\ db_accepts
         (mkOperation ty pos
            (get (d_content (transformed_op st user operation)) [])
            (get (d_length (transformed_op st user operation)) 0)
            user (doc_version (document st) + 1)) = true.
Proof.
  unfold apply_operation_with_transform. simpl. split.
  - destruct (d_type _) as [ty|]; [|intros H; now elim H].
    destruct (d_position _) as [pos|]; [|intros H; now elim H].
    destruct (db_accepts _) eqn:E; [|intros H; now elim H].
    intros _. exists ty, pos. repeat split. exact E.
  - intros (ty & pos & -> & -> & ->). simpl. discriminate.
Qed.

Lemma transform_op1_type_content (a b : OpDict) :
  op_type (op1 (transform a b)) = op_type (_normalize_operation a)
  /\ op_content (op1 (transform a b)) = op_content (_normalize_operation a).
Proof.
  unfold transform.
  generalize (_normalize_operation a) (_normalize_operation b). intros A B.
  kinds A B;
    unfold _transform_insert_insert, _transform_delete_delete,
      _handle_overlapping_deletes, _transform_insert_delete;
    branch; simpl; split; reflexivity.
Qed.

Lemma normalize_as_dict_type_content (o : Op) :
  op_type (_normalize_operation (as_dict o)) = op_type o
  /\ op_content (_normalize_operation (as_dict o)) = op_content o.
Proof. rewrite normalize_type, normalize_content. split; reflexivity. Qed.

Lemma fold_transform_keeps (l : list Operation) :
  forall t,
    (op_type (_normalize_operation
       (fold_left (fun t p => as_dict (op1 (transform t (to_dict p)))) l t))
     = op_type (_normalize_operation t)
     /\ op_content (_normalize_operation
          (fold_left (fun t p => as_dict (op1 (transform t (to_dict p)))) l t))
        = op_content (_normalize_operation t))
    /\ (forall o, t = as_dict o ->
        exists o',
          fold_left (fun t p => as_dict (op1 (transform t (to_dict p)))) l t
          = as_dict o').
Proof.
  induction l as [|p l IH]; simpl; intros t.
  - split; [split; reflexivity|]. intros o ->. now exists o.
  - destruct (IH (as_dict (op1 (transform t (to_dict p)))))
      as [[Ht Hc] Hk].
    destruct (normalize_as_dict_type_content (op1 (transform t (to_dict p))))
      as [Ht' Hc'].
    destruct (transform_op1_type_content t (to_dict p)) as [Ht'' Hc''].
    split; [split; congruence|].
    intros o _. apply (Hk _ eq_refl).
Qed.

(** X14.  The hub moves an operation, it does not rewrite it: after the
    transforms against the pending operations the operation still has its
    type and its content; and once it was transformed at least once it has
    all four keys. *)
Theorem transformed_op_keeps_type_content (st : Hub) (user : Z)
    (operation : OpDict) :
  op_type (_normalize_operation (transformed_op st user operation))
  = op_type (_normalize_operation operation)
  /\ op_content (_normalize_operation (transformed_op st user operation))
     = op_content (_normalize_operation operation)
  /\ (pending_operations st user operation <> [] ->
      exists o, transformed_op st user operation = as_dict o).
Proof.
  unfold transformed_op.
  generalize (pending_operations st user operation). intros l.
  destruct (fold_transform_keeps l operation) as [[Ht Hc] _].
  split; [exact Ht|]. split; [exact Hc|].
  destruct l as [|p l]; [intros E; now elim E|]. intros _. simpl.
  destruct (fold_transform_keeps l
              (as_dict (op1 (transform operation (to_dict p)))))
    as [_ Hk].
  apply (Hk _ eq_refl).
Qed.

Lemma seq_snoc (n : nat) : seq 1 (S n) = seq 1 n ++ [S n].
Proof. rewrite seq_S. reflexivity. Qed.

(** X15.  After any sequence of successful submits on a document that
    starts with empty content, version 0 and no row, the rows carry the
    versions 1, 2, ..., n in the order they were written. *)
Theorem submits_versions (db_accepts : Operation -> bool)
    (reqs : list (Z * OpDict)) (st : Hub) :
  submits db_accepts empty_hub reqs = Some st ->
  map o_version (operations st)
  = map Z.of_nat (seq 1 (List.length (operations st))).
Proof.
  intros H.
  enough (E : doc_version (document st)
              = Z.of_nat (List.length (operations st))
              /\ map o_version (operations st)
                 = map Z.of_nat (seq 1 (List.length (operations st))))
    by apply E.
  revert H.
  apply (submits_induction db_accepts
           (fun st => doc_version (document st)
                      = Z.of_nat (List.length (operations st))
                      /\ map o_version (operations st)
                         = map Z.of_nat
                             (seq 1 (List.length (operations st)))));
    [|split; reflexivity].
  intros st0 user operation r st1 [Hv Hm] Hs.
  destruct (submit_success _ _ _ _ _ _ Hs) as (ty & pos & _ & _ & _ & ->).
  simpl. rewrite length_app, map_app, Hm. simpl.
  rewrite Nat.add_1_r, seq_snoc, map_app. simpl.
  split; [lia|]. repeat f_equal. lia.
Qed.

Lemma submits_versions_witness :
  map o_version (operations hub_aef)
  = map Z.of_nat (seq 1 (List.length (operations hub_aef))).
Proof.
  apply (submits_versions positive_fields
           [(1, insert_op 0 "abcdef"); (1, delete_op 1 3)] hub_aef).
  reflexivity.
Defined.

(** X16.  On one document object that went through every submit (a state
    reached from the empty document by successful submits, all made through
    that object), an operation sent without [client_version], or with one
    that is not behind the version of that object, has no pending operation
    to be transformed against and is applied as it was sent.  A consumer
    that holds an older document object than the rows is not covered. *)
Theorem current_version_untransformed (db_accepts : Operation -> bool)
    (reqs : list (Z * OpDict)) (st : Hub) (user : Z) (operation : OpDict) :
  submits db_accepts empty_hub reqs = Some st ->
  doc_version (document st)
  <= get (d_client_version operation) (doc_version (document st)) ->
  pending_operations st user operation = []
  /\ transformed_op st user operation = operation.
Proof.
  intros H Hb.
  assert (Hall : Forall (fun p => o_version p <= doc_version (document st))
                        (operations st)).
  { revert H.
    apply (submits_induction db_accepts
             (fun st => Forall (fun p => o_version p
                                         <= doc_version (document st))
                               (operations st))); [|constructor].
    intros st0 u o r st1 Hinv Hs.
    destruct (submit_success _ _ _ _ _ _ Hs) as (ty & pos & _ & _ & _ & ->).
    simpl. apply Forall_app. split.
    - eapply Forall_impl; [|exact Hinv]. simpl. intros; lia.
    - constructor; [simpl; lia | constructor]. }
  assert (E : pending_operations st user operation = []).
  { unfold pending_operations.
    induction (operations st) as [|p l IH]; simpl; [reflexivity|].
    inversion Hall as [|? ? Hp Hl]; subst.
    destruct (Z.ltb_spec
                (get (d_client_version operation) (doc_version (document st)))
                (o_version p)); [lia|].
    simpl. apply IH. exact Hl. }
  split; [exact E|]. unfold transformed_op. now rewrite E.
Qed.

Lemma current_version_untransformed_witness :
  pending_operations hub_aef 2 (insert_op 1 "X") = []
  /\ transformed_op hub_aef 2 (insert_op 1 "X") = insert_op 1 "X".
Proof.
  apply (current_version_untransformed positive_fields
           [(1, insert_op 0 "abcdef"); (1, delete_op 1 3)] hub_aef 2
           (insert_op 1 "X")).
  - reflexivity.
  - simpl. lia.
Defined.

(** X17.  What [handle_operation] sends.  Without an operation in the
    message, with an empty one, or when the submit fails, it sends nothing,
    no error either.  When the submit succeeds it sends one broadcast
    followed by one acknowledgement, both with the version the document
    object now has; every consumer on another channel forwards that
    broadcast to its client as an operation frame, and the consumer that
    sent the operation forwards nothing of what was sent. *)
Theorem handle_operation_replies (db_accepts : Operation -> bool) (st : Hub)
    (user channel_name : Z) (data_operation : option OpDict) :
  ((data_operation = None
    \/ exists operation,
         data_operation = Some operation
         /\ (dict_is_empty operation = true
             \/ fst (apply_operation_with_transform db_accepts st user
                       operation) = None)) ->
   fst (handle_operation db_accepts st user channel_name data_operation) = [])
  /\
  (forall operation r st',
      data_operation = Some operation ->
      dict_is_empty operation = false ->
      apply_operation_with_transform db_accepts st user operation
      = (Some r, st') ->
      handle_operation db_accepts st user channel_name data_operation
      = ([operation_broadcast_event (transformed_op st user operation)
            (doc_version (document st')) user channel_name;
          operation_ack (doc_version (document st'))], st')
      /\ doc_version (document st') = doc_version (document st) + 1
      /\ forall other, other <> channel_name ->
           operation_broadcast other
             (operation_broadcast_event (transformed_op st user operation)
                (doc_version (document st')) user channel_name)
           = Some (operation_frame (transformed_op st user operation)
                     (doc_version (document st')) user))
  /\
  (forall event,
      In event
         (fst (handle_operation db_accepts st user channel_name
                 data_operation)) ->
      operation_broadcast channel_name event = None).
Proof.
  split; [|split].
  - unfold handle_operation.
    intros [-> | (operation & -> & [He | Hf])]; [reflexivity| |].
    + now rewrite He.
    + destruct (dict_is_empty operation); [reflexivity|].
      destruct (apply_operation_with_transform db_accepts st user operation)
        as [[r|] st']; [discriminate | reflexivity].
  - intros operation r st' -> He Hs. unfold handle_operation.
    rewrite He, Hs.
    destruct (submit_success _ _ _ _ _ _ Hs) as (ty & pos & _ & _ & -> & ->).
    simpl. split; [reflexivity|]. split; [reflexivity|].
    intros other Ho.
    destruct (Z.eqb_spec channel_name other); [congruence | reflexivity].
  - unfold handle_operation.
    destruct data_operation as [operation|]; simpl; [|intros e []].
    destruct (dict_is_empty operation); simpl; [intros e []|].
    destruct (apply_operation_with_transform db_accepts st user operation)
      as [[r|] st']; simpl; [|intros e []].
    intros e [<- | [<- | []]]; simpl; [|reflexivity].
    now rewrite Z.eqb_refl.
Qed.

(** X18.  A consumer works on the document object it holds, not on the
    rows.  When two submits succeed one after the other from two consumers
    that hold the same document state, the second sees the row of the first
    among the rows but starts from the old content and version: both rows
    get the same version, and the second document object has the old
    content with only the second operation applied. *)
Theorem stale_document_duplicates_version (db_accepts : Operation -> bool)
    (doc : Document) (rows : list Operation)
    (user_a user_b : Z) (op_a op_b : OpDict)
    (r_a r_b : Applied) (st_a st_b : Hub) :
  apply_operation_with_transform db_accepts
    {| document := doc; operations := rows |} user_a op_a = (Some r_a, st_a) ->
  apply_operation_with_transform db_accepts
    {| document := doc; operations := operations st_a |} user_b op_b
  = (Some r_b, st_b) ->
  r_version r_a = r_version r_b
  /\ (exists row_a row_b,
        operations st_b = rows ++ [row_a; row_b]
        /\ o_version row_a = o_version row_b)
  /\ doc_version (document st_b) = doc_version doc + 1
  /\ doc_content (document st_b)
     = apply_operation (doc_content doc)
         (transformed_op {| document := doc; operations := operations st_a |}
            user_b op_b).
Proof.
  intros Ha Hb.
  destruct (submit_success _ _ _ _ _ _ Ha) as (ty & pos & _ & _ & -> & ->).
  destruct (submit_success _ _ _ _ _ _ Hb) as (ty' & pos' & _ & _ & -> & ->).
  simpl. split; [reflexivity|]. split; [|split; reflexivity].
  do 2 eexists. rewrite <- app_assoc. simpl. split; reflexivity.
Qed.

Lemma stale_document_duplicates_version_witness :
  let op_a := insert_op 1 "X" in
  let op_b := insert_op 1 "Y" in
  let st_a :=
    {| document := {| doc_content := txt "aXef"; doc_version := 3 |};
       operations :=
         operations hub_aef ++ [mkOperation "insert" 1 (txt "X") 0 1 3] |} in
  let st_b :=
    {| document := {| doc_content := txt "aYef"; doc_version := 3 |};
       operations :=
         operations st_a ++ [mkOperation "insert" 1 (txt "Y") 1 2 3] |} in
  3 = 3
  /\ (exists row_a row_b,
        operations st_b = operations hub_aef ++ [row_a; row_b]
        /\ o_version row_a = o_version row_b)
  /\ doc_version (document st_b) = doc_version (document hub_aef) + 1
  /\ doc_content (document st_b)
     = apply_operation (doc_content (document hub_aef))
         (transformed_op
            {| document := document hub_aef; operations := operations st_a |}
            2 op_b).
Proof.
  cbv zeta.
  apply (stale_document_duplicates_version positive_fields
           (document hub_aef) (operations hub_aef) 1 2
           (insert_op 1 "X") (insert_op 1 "Y")
           {| r_operation := insert_op 1 "X"; r_version := 3 |}
           {| r_operation := as_dict (mkOp "insert" 1 (txt "Y") 1);
              r_version := 3 |});
    reflexivity.
Defined.

(** ** Authentication *)

(** Joining parameters with [&]. *)
Lemma split_on_app (sep : ascii) (p : str) (rest : str) :
  ~ In sep p ->
  split_on sep (p ++ sep :: rest) = p :: split_on sep rest.
Proof.
  induction p as [|c p IH]; simpl; intros Hn.
  - now rewrite Ascii.eqb_refl.
  - destruct (Ascii.eqb_spec c sep) as [->|_]; [elim Hn; now left|].
    rewrite IH by (intros H; apply Hn; now right). reflexivity.
Qed.

Lemma split_on_single (sep : ascii) (p : str) :
  ~ In sep p -> split_on sep p = [p].
Proof.
  induction p as [|c p IH]; simpl; intros Hn; [reflexivity|].
  destruct (Ascii.eqb_spec c sep) as [->|_]; [elim Hn; now left|].
  rewrite IH by (intros H; apply Hn; now right). reflexivity.
Qed.

Lemma split_join_params (params : list str) :
  params <> [] ->
  Forall (fun param => ~ In "&"%char param) params ->
  split_on "&"%char (join_params params) = params.
Proof.
  induction params as [|p rest IH]; [intros H; now elim H|].
  intros _ Hall. inversion Hall as [|? ? Hp Hrest]; subst.
  destruct rest as [|q rest].
  - simpl. now apply split_on_single.
  - change (join_params (p :: q :: rest))
      with (p ++ "&"%char :: join_params (q :: rest)).
    rewrite split_on_app by assumption.
    rewrite IH; [reflexivity | discriminate | assumption].
Qed.

(** X19.  The token of a connection is the text after [token=] in the
    first parameter of the query string that starts with [token=]; later
    parameters are not looked at.  Without such a parameter, or when the
    first one has nothing after [token=], no user is authenticated,
    whatever the token library would say. *)
Theorem first_token_parameter
    (UntypedToken : str -> bool) (get_user_from_token : str -> option Z)
    (params : list str) :
  params <> [] ->
  Forall (fun param => ~ In "&"%char param) params ->
  token_of_query (join_params params)
  = option_map (fun param => skipn 6 param)
      (find (fun param => startswith param (txt "token=")) params)
  /\ (find (fun param => startswith param (txt "token=")) params = None ->
      authenticate_user UntypedToken get_user_from_token (join_params params)
      = None)
  /\ (find (fun param => startswith param (txt "token=")) params
      = Some (txt "token=") ->
      authenticate_user UntypedToken get_user_from_token (join_params params)
      = None)
  /\ (forall token,
        token <> [] ->
        find (fun param => startswith param (txt "token=")) params
        = Some (txt "token=" ++ token) ->
        authenticate_user UntypedToken get_user_from_token
          (join_params params)
        = if UntypedToken token then get_user_from_token token else None).
Proof.
  intros Hne Hall. unfold authenticate_user, token_of_query.
  rewrite (split_join_params params Hne Hall).
  destruct (find _ params) as [param|]; simpl.
  - split; [reflexivity|]. split; [discriminate|]. split.
    + intros E. inversion E; subst. reflexivity.
    + intros token Ht E. inversion E; subst. simpl.
      destruct token; [now elim Ht | reflexivity].
  - split; [reflexivity|]. split; [reflexivity|].
    split; [discriminate | intros; discriminate].
Qed.

Lemma first_token_parameter_witness :
  let params := [txt "x=1"; txt "token=abc"; txt "token=def"] in
  token_of_query (txt "x=1&token=abc&token=def") = Some (txt "abc")
  /\ token_of_query (join_params params)
     = option_map (fun param => skipn 6 param)
         (find (fun param => startswith param (txt "token=")) params).
Proof.
  cbv zeta. split; [reflexivity|].
  refine (proj1 (first_token_parameter (fun _ => true) (fun _ => Some 1)
                   [txt "x=1"; txt "token=abc"; txt "token=def"] _ _)).
  - discriminate.
  - repeat constructor; intros H; simpl in H;
      repeat (destruct H as [H|H]; [discriminate|]); exact H.
Defined.

(** ** Access to a document *)

Import DocumentModel.

Lemma is_collaborator_app (d : DocumentAccess) (l : list Z) (user : Z) :
  existsb (Z.eqb user) (collaborators d ++ l)
  = is_collaborator d user || existsb (Z.eqb user) l.
Proof. unfold is_collaborator. apply existsb_app. Qed.

Lemma existsb_filter_other (l : list Z) (user other : Z) :
  existsb (Z.eqb other) (filter (fun c => negb (c =? user)) l)
  = existsb (Z.eqb other) l && negb (other =? user).
Proof.
  induction l as [|c l IH]; simpl; [reflexivity|].
  destruct (Z.eqb_spec c user) as [->|Hc]; simpl.
  - rewrite IH. destruct (Z.eqb_spec other user); simpl.
    + now rewrite andb_false_r.
    + now rewrite andb_true_r.
  - rewrite IH. destruct (Z.eqb_spec other c) as [->|]; simpl.
    + destruct (Z.eqb_spec c user); [contradiction | reflexivity].
    + reflexivity.
Qed.

Lemma is_collaborator_add (d : DocumentAccess) (user other : Z) :
  is_collaborator (add_collaborator d user) other
  = is_collaborator d other || (other =? user).
Proof.
  unfold add_collaborator.
  destruct (is_collaborator d user) eqn:E.
  - destruct (Z.eqb_spec other user) as [->|_].
    + now rewrite E.
    + now rewrite orb_false_r.
  - unfold is_collaborator. simpl. rewrite existsb_app. simpl.
    now rewrite orb_false_r.
Qed.

Lemma is_collaborator_remove (d : DocumentAccess) (user other : Z) :
  is_collaborator (remove_collaborator d user) other
  = is_collaborator d other && negb (other =? user).
Proof. unfold is_collaborator. simpl. apply existsb_filter_other. Qed.

Lemma add_collaborator_fields (d : DocumentAccess) (user : Z) :
  created_by (add_collaborator d user) = created_by d
  /\ is_public (add_collaborator d user) = is_public d
  /\ is_active (add_collaborator d user) = is_active d.
Proof.
  unfold add_collaborator. destruct (is_collaborator d user); repeat split.
Qed.

(** X20.  Adding a collaborator gives that user access and takes it from
    nobody; removing one leaves the access of every other user as it was,
    and leaves the removed user with access exactly when the user is the
    owner or the document is public. *)
Theorem collaborator_access (d : DocumentAccess) (user other : Z) :
  has_access (add_collaborator d user) user = true
  /\ (has_access d other = true ->
      has_access (add_collaborator d user) other = true)
  /\ (other <> user ->
      has_access (add_collaborator d user) other = has_access d other)
  /\ is_collaborator (remove_collaborator d user) user = false
  /\ has_access (remove_collaborator d user) user
     = (created_by d =? user) || is_public d
  /\ (other <> user ->
      has_access (remove_collaborator d user) other = has_access d other).
Proof.
  destruct (add_collaborator_fields d user) as (Hc & Hp & _).
  unfold has_access.
  rewrite !is_collaborator_add, !is_collaborator_remove, Hc, Hp.
  simpl. rewrite Z.eqb_refl. simpl.
  rewrite andb_false_r, orb_true_r, orb_false_r. simpl.
  split; [now rewrite orb_true_r|].
  split.
  { destruct (created_by d =? other), (is_collaborator d other),
      (is_public d); simpl; intros H; try reflexivity; try discriminate;
      now rewrite ?orb_true_r. }
  split.
  { intros Hne. destruct (Z.eqb_spec other user); [contradiction|].
    now rewrite orb_false_r. }
  split; [reflexivity|]. split; [reflexivity|].
  intros Hne. destruct (Z.eqb_spec other user); [contradiction|].
  simpl. now rewrite andb_true_r.
Qed.

(** X21.  Only the owner changes a document through the views: for any
    other user [toggle_document_public], [add_collaborator] and
    [remove_collaborator] answer 403 and leave the row as it is, whatever
    the request holds, and [perform_destroy] hands back a 403 and leaves the
    instance active. *)
Theorem only_owner_changes (users : list UserRow) (request_user : Z)
    (row : option DocumentAccess) (d : DocumentAccess)
    (data_user_id : option Z) (data_email : option str) (id : Z) :
  Views.get_active row = Some d ->
  created_by d <> request_user ->
  Views.toggle_document_public request_user row = (Views.HTTP 403, row)
  /\ Views.add_collaborator users request_user data_user_id data_email row
     = (Views.HTTP 403, row)
  /\ Views.remove_collaborator users request_user id row
     = (Views.HTTP 403, row)
  /\ Views.perform_destroy request_user d = (Some (Views.HTTP 403), d).
Proof.
  intros Hrow Hne.
  unfold Views.toggle_document_public, Views.add_collaborator,
    Views.remove_collaborator, Views.perform_destroy.
  rewrite Hrow.
  destruct (Z.eqb_spec (created_by d) request_user); [contradiction|].
  simpl. split; [|split; [|split]]; reflexivity.
Qed.

Lemma only_owner_changes_witness :
  let d := mkAccess 1 [2] false true in
  Views.toggle_document_public 2 (Some d) = (Views.HTTP 403, Some d)
  /\ Views.add_collaborator [mkUser 3 (txt "c@x")] 2 (Some 3) None (Some d)
     = (Views.HTTP 403, Some d)
  /\ Views.remove_collaborator [mkUser 3 (txt "c@x")] 2 2 (Some d)
     = (Views.HTTP 403, Some d)
  /\ Views.perform_destroy 2 d = (Some (Views.HTTP 403), d).
Proof.
  apply (only_owner_changes [mkUser 3 (txt "c@x")] 2
           (Some (mkAccess 1 [2] false true)) (mkAccess 1 [2] false true)
           (Some 3) None 2).
  - reflexivity.
  - discriminate.
Defined.

(** X22.  [join_document] gives access to nobody.  It answers 200 exactly
    when the document is active and the user has access already; the user
    is then among the collaborators; and in every case each user has access
    after the call exactly when the user had it before. *)
Theorem join_document_access (request_user : Z) (d : DocumentAccess) :
  exists d',
    snd (Views.join_document request_user (Some d)) = Some d'
    /\ (forall other, has_access d' other = has_access d other)
    /\ (fst (Views.join_document request_user (Some d)) = Views.HTTP 200
        <-> is_active d = true /\ has_access d request_user = true)
    /\ (fst (Views.join_document request_user (Some d)) = Views.HTTP 200 ->
        is_collaborator d' request_user = true).
Proof.
  unfold Views.join_document, Views.get_active.
  destruct (is_active d) eqn:Ea.
  - destruct (is_public d) eqn:Ep; simpl.
    + destruct (is_collaborator d request_user) eqn:Ec; simpl.
      * exists d. split; [reflexivity|]. split; [reflexivity|].
        split; [|intros _; exact Ec].
        split; [intros _|reflexivity]. split; [reflexivity|].
        unfold has_access. now rewrite Ep, orb_true_r.
      * exists (add_collaborator d request_user).
        split; [reflexivity|]. split.
        -- intros other. destruct (add_collaborator_fields d request_user)
             as (Hc & Hp & _).
           unfold has_access. rewrite Hc, Hp, Ep. now rewrite !orb_true_r.
        -- split.
           ++ split; [intros _|reflexivity]. split; [reflexivity|].
              unfold has_access. now rewrite Ep, orb_true_r.
           ++ intros _. rewrite is_collaborator_add, Z.eqb_refl.
              apply orb_true_r.
    + destruct (has_access d request_user) eqn:Eh; simpl.
      * destruct (is_collaborator d request_user) eqn:Ec; simpl.
        -- exists d. split; [reflexivity|]. split; [reflexivity|].
           split; [|intros _; exact Ec].
           split; [intros _; split|]; reflexivity.
        -- exists (add_collaborator d request_user).
           split; [reflexivity|]. split.
           ++ intros other.
              destruct (add_collaborator_fields d request_user)
                as (Hc & Hp & _).
              unfold has_access in *.
              rewrite is_collaborator_add, Hc, Hp.
              destruct (Z.eqb_spec other request_user) as [->|_]; simpl.
              ** rewrite Ec, Ep in Eh. rewrite Ec, Ep.
                 destruct (created_by d =? request_user);
                   [reflexivity | discriminate].
              ** now rewrite orb_false_r.
           ++ split.
              ** split; [intros _; split|]; reflexivity.
              ** intros _. rewrite is_collaborator_add, Z.eqb_refl.
                 apply orb_true_r.
      * exists d. split; [reflexivity|]. split; [reflexivity|].
        split; [|discriminate].
        split; [discriminate | intros [_ H]; discriminate].
  - simpl. exists d. split; [reflexivity|]. split; [reflexivity|].
    split; [|discriminate].
    split; [discriminate | intros [H _]; discriminate].
Qed.

(** X23.  [leave_document] refuses the owner with 400 and changes
    nothing.  Any other user is removed from the collaborators and keeps
    access exactly when the document is public; having left a private
    document, the user is refused by [join_document]. *)
Theorem leave_document_access (request_user : Z)
    (row : option DocumentAccess) (d : DocumentAccess) :
  Views.get_active row = Some d ->
  (created_by d = request_user ->
   Views.leave_document request_user row = (Views.HTTP 400, row))
  /\ (created_by d <> request_user ->
      Views.leave_document request_user row
      = (Views.HTTP 200, Some (remove_collaborator d request_user))
      /\ is_collaborator (remove_collaborator d request_user) request_user
         = false
      /\ has_access (remove_collaborator d request_user) request_user
         = is_public d
      /\ (is_public d = false ->
          Views.join_document request_user
            (Some (remove_collaborator d request_user))
          = (Views.HTTP 403, Some (remove_collaborator d request_user)))).
Proof.
  intros Hrow. unfold Views.leave_document. rewrite Hrow. split.
  - intros ->. now rewrite Z.eqb_refl.
  - intros Hne.
    destruct (Z.eqb_spec (created_by d) request_user); [contradiction|].
    split; [reflexivity|].
    assert (Hc : is_collaborator (remove_collaborator d request_user)
                   request_user = false).
    { rewrite is_collaborator_remove, Z.eqb_refl. apply andb_false_r. }
    assert (Ha : has_access (remove_collaborator d request_user) request_user
                 = is_public d).
    { unfold has_access. rewrite Hc. simpl.
      destruct (Z.eqb_spec (created_by d) request_user); [contradiction|].
      reflexivity. }
    split; [exact Hc|]. split; [exact Ha|].
    intros Hp. unfold Views.join_document, Views.get_active. simpl.
    assert (Hact : is_active d = true).
    { unfold Views.get_active in Hrow. destruct row as [d0|]; [|discriminate].
      destruct (is_active d0) eqn:E; [|discriminate].
      inversion Hrow; subst. exact E. }
    rewrite Hact, Ha, Hp.
    change (is_public (remove_collaborator d request_user))
      with (is_public d).
    now rewrite Hp.
Qed.

Lemma leave_document_access_witness :
  let d := mkAccess 1 [2; 3] false true in
  Views.leave_document 1 (Some d) = (Views.HTTP 400, Some d)
  /\ Views.leave_document 2 (Some d)
     = (Views.HTTP 200, Some (mkAccess 1 [3] false true))
  /\ Views.join_document 2 (Some (mkAccess 1 [3] false true))
     = (Views.HTTP 403, Some (mkAccess 1 [3] false true)).
Proof.
  cbv zeta.
  destruct (leave_document_access 1 (Some (mkAccess 1 [2; 3] false true))
              (mkAccess 1 [2; 3] false true) eq_refl) as [H1 _].
  destruct (leave_document_access 2 (Some (mkAccess 1 [2; 3] false true))
              (mkAccess 1 [2; 3] false true) eq_refl) as [_ H2].
  destruct (H2 ltac:(discriminate)) as (H3 & _ & _ & H4).
  split; [exact (H1 eq_refl)|]. split; [exact H3 | exact (H4 eq_refl)].
Defined.

(** X24.  [toggle_document_public] called by the owner flips [is_public]
    and nothing else, so that calling it twice gives the row back. *)
Theorem toggle_twice (request_user : Z) (row : option DocumentAccess)
    (d : DocumentAccess) :
  Views.get_active row = Some d ->
  created_by d = request_user ->
  exists d',
    Views.toggle_document_public request_user row = (Views.HTTP 200, Some d')
    /\ is_public d' = negb (is_public d)
    /\ created_by d' = created_by d
    /\ collaborators d' = collaborators d
    /\ Views.toggle_document_public request_user (Some d')
       = (Views.HTTP 200, Some d).
Proof.
  intros Hrow Ho. unfold Views.toggle_document_public. rewrite Hrow.
  assert (Hact : is_active d = true).
  { unfold Views.get_active in Hrow. destruct row as [d0|]; [|discriminate].
    destruct (is_active d0) eqn:E; [|discriminate].
    inversion Hrow; subst. exact E. }
  subst request_user. rewrite Z.eqb_refl. simpl.
  eexists. split; [reflexivity|]. simpl.
  rewrite Hact, Z.eqb_refl. simpl.
  repeat (split; [reflexivity|]).
  rewrite negb_involutive. destruct d; simpl in *. now rewrite Hact.
Qed.

Lemma toggle_twice_witness :
  let d := mkAccess 1 [2] false true in
  exists d',
    Views.toggle_document_public 1 (Some d) = (Views.HTTP 200, Some d')
    /\ is_public d' = negb (is_public d)
    /\ created_by d' = created_by d
    /\ collaborators d' = collaborators d
    /\ Views.toggle_document_public 1 (Some d') = (Views.HTTP 200, Some d).
Proof.
  apply (toggle_twice 1 (Some (mkAccess 1 [2] false true))
           (mkAccess 1 [2] false true)); reflexivity.
Defined.

(** X25.  A document that does not exist or is not active is out of reach
    of the views: each of them answers 404 and leaves the row as it is. *)
Theorem inactive_document_untouched (users : list UserRow) (request_user : Z)
    (row : option DocumentAccess)
    (data_user_id : option Z) (data_email : option str) (id : Z) :
  Views.get_active row = None ->
  Views.join_document request_user row = (Views.HTTP 404, row)
  /\ Views.leave_document request_user row = (Views.HTTP 404, row)
  /\ Views.toggle_document_public request_user row = (Views.HTTP 404, row)
  /\ Views.add_collaborator users request_user data_user_id data_email row
     = (Views.HTTP 404, row)
  /\ Views.remove_collaborator users request_user id row
     = (Views.HTTP 404, row).
Proof.
  intros Hrow.
  unfold Views.join_document, Views.leave_document,
    Views.toggle_document_public, Views.add_collaborator,
    Views.remove_collaborator.
  rewrite Hrow. split; [|split; [|split; [|split]]]; reflexivity.
Qed.

Lemma inactive_document_untouched_witness :
  let row := Some (mkAccess 1 [2] true false) in
  Views.join_document 2 row = (Views.HTTP 404, row)
  /\ Views.leave_document 2 row = (Views.HTTP 404, row)
  /\ Views.toggle_document_public 2 row = (Views.HTTP 404, row)
  /\ Views.add_collaborator [mkUser 3 (txt "c@x")] 2 (Some 3) None row
     = (Views.HTTP 404, row)
  /\ Views.remove_collaborator [mkUser 3 (txt "c@x")] 2 2 row
     = (Views.HTTP 404, row).
Proof.
  apply (inactive_document_untouched [mkUser 3 (txt "c@x")] 2
           (Some (mkAccess 1 [2] true false)) (Some 3) None 2).
  reflexivity.
Defined.

(** X26.  [add_collaborator] called by the owner with a [user_id] other
    than 0 goes by the id alone, whatever [email] holds: 404 when no user
    has the id, 400 when the user is a collaborator already, and otherwise
    200 with the user added, who then has access.  Nothing changes in the
    first two cases. *)
Theorem add_collaborator_by_id (users : list UserRow) (request_user : Z)
    (row : option DocumentAccess) (d : DocumentAccess) (id : Z)
    (data_email : option str) :
  Views.get_active row = Some d ->
  created_by d = request_user ->
  id <> 0 ->
  (Views.get_user_by_id users id = None ->
   Views.add_collaborator users request_user (Some id) data_email row
   = (Views.HTTP 404, row))
  /\ (Views.get_user_by_id users id <> None ->
      (is_collaborator d id = true ->
       Views.add_collaborator users request_user (Some id) data_email row
       = (Views.HTTP 400, row))
      /\ (is_collaborator d id = false ->
          Views.add_collaborator users request_user (Some id) data_email row
          = (Views.HTTP 200, Some (add_collaborator d id))
          /\ has_access (add_collaborator d id) id = true)).
Proof.
  intros Hrow Ho Hid. unfold Views.add_collaborator. rewrite Hrow.
  subst request_user. rewrite Z.eqb_refl. simpl.
  destruct (Z.eqb_spec id 0); [contradiction|]. simpl.
  destruct (Views.get_user_by_id users id) as [c|] eqn:E.
  - split; [discriminate|]. intros _.
    unfold Views.get_user_by_id in E. apply find_some in E.
    destruct E as [_ E]. apply Z.eqb_eq in E. rewrite E.
    split; [intros ->; reflexivity|].
    intros Hc. rewrite Hc. split; [reflexivity|].
    unfold has_access. rewrite is_collaborator_add, Z.eqb_refl.
    now rewrite !orb_true_r.
  - split; [reflexivity|]. intros H. now elim H.
Qed.

Lemma add_collaborator_by_id_witness :
  let users := [mkUser 2 (txt "b@x"); mkUser 3 (txt "c@x")] in
  let d := mkAccess 1 [2] false true in
  Views.add_collaborator users 1 (Some 9) (Some (txt "c@x")) (Some d)
  = (Views.HTTP 404, Some d)
  /\ Views.add_collaborator users 1 (Some 2) None (Some d)
     = (Views.HTTP 400, Some d)
  /\ Views.add_collaborator users 1 (Some 3) None (Some d)
     = (Views.HTTP 200, Some (mkAccess 1 [2; 3] false true)).
Proof.
  cbv zeta.
  pose (users := [mkUser 2 (txt "b@x"); mkUser 3 (txt "c@x")]).
  pose (d := mkAccess 1 [2] false true).
  destruct (add_collaborator_by_id users 1 (Some d) d 9 (Some (txt "c@x"))
              eq_refl eq_refl ltac:(discriminate)) as [H1 _].
  destruct (add_collaborator_by_id users 1 (Some d) d 2 None
              eq_refl eq_refl ltac:(discriminate)) as [_ H2].
  destruct (add_collaborator_by_id users 1 (Some d) d 3 None
              eq_refl eq_refl ltac:(discriminate)) as [_ H3].
  destruct (H2 ltac:(discriminate)) as [H2' _].
  destruct (H3 ltac:(discriminate)) as [_ H3'].
  split; [exact (H1 eq_refl)|].
  split; [exact (H2' eq_refl) | exact (proj1 (H3' eq_refl))].
Defined.

(** X13.  Away from ties the two orders of transforming agree: for
    operations at different positions that pass [validate_operation] on [C]
    (deletes of non-negative length) and on which the rules converge,
    applying [a] and then [transform(a,b).second] gives the same text as
    applying [b] and then [transform(b,a).second]. *)
Theorem convergence_away_from_ties (C : str) (a b : OpDict) :
  fits a C = true ->
  fits b C = true ->
  convergent (_normalize_operation a) (_normalize_operation b) = true ->
  op_position (_normalize_operation a) <> op_position (_normalize_operation b) ->
  apply_operation (apply_operation C a) (as_dict (op2 (transform a b)))
  = apply_operation (apply_operation C b) (as_dict (op2 (transform b a))).
Proof.
  intros Ha Hb Hc Hne.
  destruct (fits_spec a C Ha) as [HpA HdA].
  destruct (fits_spec b C Hb) as [HpB HdB].
  rewrite !apply_operation_as_dict, !apply_operation_normalized.
  change (transform a b)
    with (transform_normalized (_normalize_operation a)
                               (_normalize_operation b)).
  change (transform b a)
    with (transform_normalized (_normalize_operation b)
                               (_normalize_operation a)).
  destruct (transform_normalized_swap (_normalize_operation a)
              (_normalize_operation b) Hne) as [_ Hs].
  - intros H. apply (HdA H).
  - intros H. apply (HdB H).
  - rewrite Hs. apply converge_normalized; assumption.
Qed.

Lemma convergence_away_from_ties_witness :
  let C := txt "abcdef" in
  let a := delete_op 0 3 in
  let b := delete_op 1 3 in
  apply_operation (apply_operation C a) (as_dict (op2 (transform a b)))
  = apply_operation (apply_operation C b) (as_dict (op2 (transform b a))).
Proof.
  apply (convergence_away_from_ties (txt "abcdef") (delete_op 0 3)
           (delete_op 1 3)); try reflexivity.
  simpl. discriminate.
Defined.
